(** * Agora: the ticketing schema and the organizer cards

    The repository consists of a PostgreSQL schema (six tables, foreign keys
    with ON DELETE CASCADE, one trigger function bound to six BEFORE UPDATE
    triggers) and a presentational React component that renders a fixed list
    of organizer cards.

    The schema is transcribed declaration by declaration into the values
    [users], [organizers], [events], [ticket_tiers], [tickets],
    [transactions] and [triggers] below; INSERT, UPDATE and DELETE are
    functions over an explicit database state that enforce exactly the
    constraints those declarations carry.  The component is transcribed into
    a function returning an element tree. *)

From Stdlib Require Import List String ZArith NArith Bool Lia.
Import ListNotations.

Module Sql.

Local Open Scope string_scope.
Local Open Scope Z_scope.

(** ** Column types and values *)

Inductive sql_type : Type :=
| UUID
| TEXT
| TIMESTAMPTZ
| INTEGER
| DECIMAL (precision scale : nat).

(** A [decimal] carries the unscaled integer of a value already rounded to
    the scale of its column (hundredths for DECIMAL(10, 2)); a [timestamptz]
    counts microseconds; a [uuid] is the identifier read as a number.
    INTEGER and DECIMAL values are checked against the range of their type
    in [has_type]; identifiers and timestamps are left unbounded. *)
Inductive value : Type :=
| NULL
| uuid (u : N)
| text (s : string)
| timestamptz (t : Z)
| integer (n : Z)
| decimal (unscaled : Z).

Definition value_eqb (a b : value) : bool :=
  match a, b with
  | NULL, NULL => true
  | uuid x, uuid y => N.eqb x y
  | text x, text y => String.eqb x y
  | timestamptz x, timestamptz y => Z.eqb x y
  | integer x, integer y => Z.eqb x y
  | decimal x, decimal y => Z.eqb x y
  | _, _ => false
  end.

(** SQL equality as used by unique indexes and foreign keys: NULL matches
    nothing, not even NULL. *)
Definition matches (a b : value) : bool :=
  match a with
  | NULL => false
  | _ => value_eqb a b
  end.

Definition has_type (ty : sql_type) (v : value) : bool :=
  match v, ty with
  | NULL, _ => true
  | uuid _, UUID => true
  | text _, TEXT => true
  | timestamptz _, TIMESTAMPTZ => true
  | integer n, INTEGER => (- 2 ^ 31 <=? n) && (n <? 2 ^ 31)
  | decimal x, DECIMAL p _ => Z.abs x <? 10 ^ Z.of_nat p
  | _, _ => false
  end.

(** ** Declarations *)

Inductive expr : Type :=
| uuid_generate_v4
| NOW
| literal (v : value).

Inductive action : Type :=
| NO_ACTION
| CASCADE.

Inductive constraint : Type :=
| PRIMARY_KEY
| NOT_NULL
| UNIQUE
| DEFAULT (e : expr)
| REFERENCES (parent parent_column : string) (on_delete : action).

Record column : Type := col {
  col_name : string;
  col_type : sql_type;
  col_constraints : list constraint
}.

Record table : Type := CREATE_TABLE {
  tbl_name : string;
  tbl_columns : list column
}.

(** ** Rows, statements and the database state *)

Definition row : Type := list (string * value).

Fixpoint assoc (c : string) (r : list (string * value)) : option value :=
  match r with
  | [] => None
  | (k, v) :: rest => if String.eqb k c then Some v else assoc c rest
  end.

Definition get (c : string) (r : row) : value :=
  match assoc c r with
  | Some v => v
  | None => NULL
  end.

(** Assignment to a field of a record: the field keeps its place. *)
Definition set (c : string) (v : value) (r : row) : row :=
  map (fun kv => (fst kv, if String.eqb (fst kv) c then v else snd kv)) r.

(** The VALUES of an INSERT or the SET list of an UPDATE: the columns the
    statement names, each with the value it supplies (NULL included). *)
Definition statement : Type := list (string * value).

Definition db : Type := string -> list row.

Definition empty : db := fun _ => [].

Definition put (t : string) (rows : list row) (d : db) : db :=
  fun t' => if String.eqb t' t then rows else d t'.

(** What the server contributes to one statement: the transaction time
    returned by NOW() and the identifier returned by uuid_generate_v4(). *)
Record env : Type := {
  current_time : Z;
  generated_uuid : N
}.

Definition eval (e : env) (x : expr) : value :=
  match x with
  | uuid_generate_v4 => uuid (generated_uuid e)
  | NOW => timestamptz (current_time e)
  | literal v => v
  end.

Inductive error : Type :=
| undefined_column (t c : string)
| duplicate_column (t c : string)
| invalid_value (t c : string)
| not_null_violation (t c : string)
| unique_violation (t c : string)
| foreign_key_violation (t c : string).

(** [Done rows] lists the rows the statement inserted, stored or deleted in
    its target table (what RETURNING * would give). *)
Inductive outcome : Type :=
| Done (rows : list row)
| Failed (err : error).

(** ** The schema *)

Definition users : table :=
  CREATE_TABLE "users" [
    col "id" UUID [PRIMARY_KEY; DEFAULT uuid_generate_v4];
    col "name" TEXT [NOT_NULL];
    col "email" TEXT [UNIQUE; NOT_NULL];
    col "created_at" TIMESTAMPTZ [NOT_NULL; DEFAULT NOW];
    col "updated_at" TIMESTAMPTZ [NOT_NULL; DEFAULT NOW]
  ].

Definition organizers : table :=
  CREATE_TABLE "organizers" [
    col "id" UUID [PRIMARY_KEY; DEFAULT uuid_generate_v4];
    col "name" TEXT [NOT_NULL];
    col "description" TEXT [];
    col "contact_email" TEXT [NOT_NULL];
    col "created_at" TIMESTAMPTZ [NOT_NULL; DEFAULT NOW];
    col "updated_at" TIMESTAMPTZ [NOT_NULL; DEFAULT NOW]
  ].

Definition events : table :=
  CREATE_TABLE "events" [
    col "id" UUID [PRIMARY_KEY; DEFAULT uuid_generate_v4];
    col "organizer_id" UUID [NOT_NULL; REFERENCES "organizers" "id" CASCADE];
    col "title" TEXT [NOT_NULL];
    col "description" TEXT [];
    col "location" TEXT [NOT_NULL];
    col "start_time" TIMESTAMPTZ [NOT_NULL];
    col "end_time" TIMESTAMPTZ [];
    col "created_at" TIMESTAMPTZ [NOT_NULL; DEFAULT NOW];
    col "updated_at" TIMESTAMPTZ [NOT_NULL; DEFAULT NOW]
  ].

Definition ticket_tiers : table :=
  CREATE_TABLE "ticket_tiers" [
    col "id" UUID [PRIMARY_KEY; DEFAULT uuid_generate_v4];
    col "event_id" UUID [NOT_NULL; REFERENCES "events" "id" CASCADE];
    col "name" TEXT [NOT_NULL];
    col "description" TEXT [];
    col "price" (DECIMAL 10 2) [NOT_NULL];
    col "total_quantity" INTEGER [NOT_NULL];
    col "available_quantity" INTEGER [NOT_NULL];
    col "created_at" TIMESTAMPTZ [NOT_NULL; DEFAULT NOW];
    col "updated_at" TIMESTAMPTZ [NOT_NULL; DEFAULT NOW]
  ].

Definition tickets : table :=
  CREATE_TABLE "tickets" [
    col "id" UUID [PRIMARY_KEY; DEFAULT uuid_generate_v4];
    col "user_id" UUID [NOT_NULL; REFERENCES "users" "id" CASCADE];
    col "ticket_tier_id" UUID
        [NOT_NULL; REFERENCES "ticket_tiers" "id" CASCADE];
    col "status" TEXT [NOT_NULL];
    col "qr_code" TEXT [];
    col "created_at" TIMESTAMPTZ [NOT_NULL; DEFAULT NOW];
    col "updated_at" TIMESTAMPTZ [NOT_NULL; DEFAULT NOW]
  ].

Definition transactions : table :=
  CREATE_TABLE "transactions" [
    col "id" UUID [PRIMARY_KEY; DEFAULT uuid_generate_v4];
    col "ticket_id" UUID [NOT_NULL; REFERENCES "tickets" "id" CASCADE];
    col "amount" (DECIMAL 10 2) [NOT_NULL];
    col "currency" TEXT [NOT_NULL; DEFAULT (literal (text "USD"))];
    col "status" TEXT [NOT_NULL];
    col "stellar_transaction_hash" TEXT [];
    col "created_at" TIMESTAMPTZ [NOT_NULL; DEFAULT NOW];
    col "updated_at" TIMESTAMPTZ [NOT_NULL; DEFAULT NOW]
  ].

Definition schema : list table :=
  [users; organizers; events; ticket_tiers; tickets; transactions].

(** ** The trigger function and its six triggers *)

(** BEGIN NEW.updated_at = NOW(); RETURN NEW; END *)
Definition update_updated_at_column (e : env) (NEW : row) : row :=
  set "updated_at" (eval e NOW) NEW.

Inductive event : Type :=
| BEFORE_INSERT
| BEFORE_UPDATE.

(** Every trigger of the schema is FOR EACH ROW. *)
Record trigger : Type := CREATE_TRIGGER {
  trg_name : string;
  trg_event : event;
  trg_table : string;
  trg_procedure : env -> row -> row
}.

Definition event_eqb (a b : event) : bool :=
  match a, b with
  | BEFORE_INSERT, BEFORE_INSERT => true
  | BEFORE_UPDATE, BEFORE_UPDATE => true
  | _, _ => false
  end.

Definition triggers : list trigger := [
  CREATE_TRIGGER "update_users_updated_at" BEFORE_UPDATE "users"
                 update_updated_at_column;
  CREATE_TRIGGER "update_organizers_updated_at" BEFORE_UPDATE "organizers"
                 update_updated_at_column;
  CREATE_TRIGGER "update_events_updated_at" BEFORE_UPDATE "events"
                 update_updated_at_column;
  CREATE_TRIGGER "update_ticket_tiers_updated_at" BEFORE_UPDATE "ticket_tiers"
                 update_updated_at_column;
  CREATE_TRIGGER "update_tickets_updated_at" BEFORE_UPDATE "tickets"
                 update_updated_at_column;
  CREATE_TRIGGER "update_transactions_updated_at" BEFORE_UPDATE "transactions"
                 update_updated_at_column
].

(** ** Reading the declarations *)

Definition is_primary_key (c : column) : bool :=
  existsb (fun k => match k with PRIMARY_KEY => true | _ => false end)
          (col_constraints c).

(** PRIMARY KEY implies NOT NULL and UNIQUE. *)
Definition is_not_null (c : column) : bool :=
  existsb (fun k => match k with PRIMARY_KEY | NOT_NULL => true | _ => false end)
          (col_constraints c).

Definition is_unique (c : column) : bool :=
  existsb (fun k => match k with PRIMARY_KEY | UNIQUE => true | _ => false end)
          (col_constraints c).

Fixpoint first_default (ks : list constraint) : option expr :=
  match ks with
  | [] => None
  | DEFAULT x :: _ => Some x
  | _ :: rest => first_default rest
  end.

Definition default_of (c : column) : option expr :=
  first_default (col_constraints c).

Definition references_of (c : column) : list (string * string) :=
  flat_map (fun k => match k with
                     | REFERENCES p pc _ => [(p, pc)]
                     | _ => []
                     end) (col_constraints c).

Definition find_column (t : table) (c : string) : option column :=
  find (fun k => String.eqb (col_name k) c) (tbl_columns t).

Definition column_names (t : table) : list string :=
  map col_name (tbl_columns t).

Definition primary_key (t : table) : string :=
  match find is_primary_key (tbl_columns t) with
  | Some c => col_name c
  | None => ""
  end.

(** A foreign key seen from the table it points at. *)
Record reference : Type := {
  child : string;
  child_column : string;
  parent_column : string;
  on_delete : action
}.

Definition referencing (parent : string) : list reference :=
  flat_map (fun t =>
    flat_map (fun c =>
      flat_map (fun k =>
        match k with
        | REFERENCES p pc a =>
            if String.eqb p parent
            then [{| child := tbl_name t; child_column := col_name c;
                     parent_column := pc; on_delete := a |}]
            else []
        | _ => []
        end) (col_constraints c)) (tbl_columns t)) schema.

(** Every foreign key of the schema: child table, child column, parent
    table, parent column. *)
Definition foreign_keys : list (string * string * string * string) :=
  flat_map (fun t =>
    flat_map (fun c =>
      map (fun ref => (tbl_name t, col_name c, fst ref, snd ref))
          (references_of c)) (tbl_columns t)) schema.

(** ** Constraint checks *)

(** Some row holds a value in column [c] that equals [v]. *)
Definition present (c : string) (v : value) (rows : list row) : bool :=
  existsb (fun o => matches v (get c o)) rows.

Definition orelse (a b : option error) : option error :=
  match a with
  | Some _ => a
  | None => b
  end.

Infix "<|>" := orelse (at level 61, left associativity).

Fixpoint first_error {A : Type} (check : A -> option error) (l : list A)
  : option error :=
  match l with
  | [] => None
  | x :: rest =>
      match check x with
      | Some err => Some err
      | None => first_error check rest
      end
  end.

(** The statement names only columns of the table, none twice, and gives
    each a value of the column's type. *)
Fixpoint check_statement (t : table) (st : statement) : option error :=
  match st with
  | [] => None
  | (c, v) :: rest =>
      match find_column t c with
      | None => Some (undefined_column (tbl_name t) c)
      | Some k =>
          if negb (has_type (col_type k) v)
          then Some (invalid_value (tbl_name t) c)
          else match assoc c rest with
               | Some _ => Some (duplicate_column (tbl_name t) c)
               | None => check_statement t rest
               end
      end
  end.

Definition check_not_null (t : table) (r : row) : option error :=
  first_error (fun c =>
    if is_not_null c
    then match get (col_name c) r with
         | NULL => Some (not_null_violation (tbl_name t) (col_name c))
         | _ => None
         end
    else None) (tbl_columns t).

Definition check_unique (t : table) (r : row) (others : list row)
  : option error :=
  first_error (fun c =>
    if is_unique c && present (col_name c) (get (col_name c) r) others
    then Some (unique_violation (tbl_name t) (col_name c))
    else None) (tbl_columns t).

(** Outgoing foreign keys of the columns selected by [changed]: a value
    that is not NULL must be present in the referenced column. *)
Definition check_references (t : table) (changed : string -> bool) (r : row)
           (d : db) : option error :=
  first_error (fun c =>
    if changed (col_name c)
    then first_error (fun ref =>
           match get (col_name c) r with
           | NULL => None
           | v => if present (snd ref) v (d (fst ref))
                  then None
                  else Some (foreign_key_violation (tbl_name t) (col_name c))
           end) (references_of c)
    else None) (tbl_columns t).

(** Incoming foreign keys on UPDATE.  No declaration has an ON UPDATE
    clause, so the action is NO ACTION: a referenced value that is still in
    use by a child row cannot change. *)
Definition check_referenced (t : table) (OLD NEW : row) (d : db)
  : option error :=
  first_error (fun f =>
    if value_eqb (get (parent_column f) OLD) (get (parent_column f) NEW)
    then None
    else if existsb (fun o => matches (get (child_column f) o)
                                      (get (parent_column f) OLD))
                    (d (child f))
         then Some (foreign_key_violation (child f) (child_column f))
         else None) (referencing (tbl_name t)).

(** ** Triggers *)

Definition fire (ev : event) (t : table) (e : env) (r : row) : row :=
  fold_left (fun r' g =>
    if event_eqb (trg_event g) ev && String.eqb (trg_table g) (tbl_name t)
    then trg_procedure g e r'
    else r') triggers r.

(** ** INSERT INTO t (columns of st) VALUES (values of st) *)

(** The checks run in the order of the server: the statement itself, then
    NOT NULL, then the unique indexes (primary key first), then the foreign
    keys.  A statement that fails changes nothing. *)

(** A column the statement does not name takes its DEFAULT, or NULL when it
    has none. *)
Definition supplied (e : env) (st : statement) (c : column) : value :=
  match assoc (col_name c) st with
  | Some v => v
  | None =>
      match default_of c with
      | Some x => eval e x
      | None => NULL
      end
  end.

Definition new_row (e : env) (t : table) (st : statement) : row :=
  map (fun c => (col_name c, supplied e st c)) (tbl_columns t).

Definition insert (e : env) (t : table) (st : statement) (d : db)
  : db * outcome :=
  let NEW := fire BEFORE_INSERT t e (new_row e t st) in
  match check_statement t st
        <|> check_not_null t NEW
        <|> check_unique t NEW (d (tbl_name t))
        <|> check_references t (fun _ => true) NEW d
  with
  | Some err => (d, Failed err)
  | None => (put (tbl_name t) (d (tbl_name t) ++ [NEW]) d, Done [NEW])
  end.

(** ** UPDATE t SET (st) WHERE primary key = k *)

(** The statement addresses one row by its primary key (the first row found
    with that key; the key is unique in every state the statements build).
    The SET list holds values, already evaluated.  The row is assigned, the
    BEFORE UPDATE triggers of the table run on it, and the result is checked
    and stored in the place of the old row. *)

Fixpoint locate (c : string) (k : value) (rows : list row)
  : option (list row * row * list row) :=
  match rows with
  | [] => None
  | r :: rest =>
      if matches k (get c r) then Some ([], r, rest)
      else match locate c k rest with
           | Some (before, x, after) => Some (r :: before, x, after)
           | None => None
           end
  end.

Definition assign (st : statement) (OLD : row) : row :=
  map (fun kv => (fst kv, match assoc (fst kv) st with
                          | Some v => v
                          | None => snd kv
                          end)) OLD.

Definition changed (OLD NEW : row) (c : string) : bool :=
  negb (value_eqb (get c OLD) (get c NEW)).

Definition update (e : env) (t : table) (k : value) (st : statement) (d : db)
  : db * outcome :=
  match check_statement t st with
  | Some err => (d, Failed err)
  | None =>
      match locate (primary_key t) k (d (tbl_name t)) with
      | None => (d, Done [])
      | Some (before, OLD, after) =>
          let NEW := fire BEFORE_UPDATE t e (assign st OLD) in
          match check_not_null t NEW
                <|> check_unique t NEW (before ++ after)
                <|> check_references t (changed OLD NEW) NEW d
                <|> check_referenced t OLD NEW d
          with
          | Some err => (d, Failed err)
          | None => (put (tbl_name t) (before ++ NEW :: after) d, Done [NEW])
          end
      end
  end.

(** ** DELETE FROM t WHERE where_ *)

(** The rows of a child table that reference one of the [victims]. *)
Definition orphaned (f : reference) (victims : list row) (r : row) : bool :=
  existsb (fun v => matches (get (child_column f) r) (get (parent_column f) v))
          victims.

(** Removes the [doomed] rows of [t], then follows every foreign key that
    points at [t].  [None] means the fuel ran out. *)
Fixpoint cascade (fuel : nat) (t : string) (doomed : row -> bool) (d : db)
  : option (error + db) :=
  match fuel with
  | O => None
  | S fuel' =>
      let victims := filter doomed (d t) in
      let d1 := put t (filter (fun r => negb (doomed r)) (d t)) d in
      fold_left (fun acc f =>
        match acc with
        | Some (inr d') =>
            match on_delete f with
            | CASCADE => cascade fuel' (child f) (orphaned f victims) d'
            | NO_ACTION =>
                if existsb (orphaned f victims) (d' (child f))
                then Some (inl (foreign_key_violation (child f)
                                                      (child_column f)))
                else Some (inr d')
            end
        | _ => acc
        end) (referencing t) (Some (inr d1))
  end.

Definition delete_from (fuel : nat) (t : table) (where_ : row -> bool)
           (d : db) : option (db * outcome) :=
  match cascade fuel (tbl_name t) where_ d with
  | None => None
  | Some (inl err) => Some (d, Failed err)
  | Some (inr d') => Some (d', Done (filter where_ (d (tbl_name t))))
  end.

(** WHERE c = k *)
Definition equals (c : string) (k : value) (r : row) : bool :=
  matches k (get c r).

(** ** Vocabulary of the properties *)

(** Row [r] references, through its column [fk], the id of one of the
    [parents]. *)
Definition references (fk : string) (parents : list row) (r : row) : bool :=
  existsb (fun p => matches (get fk r) (get "id" p)) parents.

(** The rows that are left when the [gone] ones are removed. *)
Definition without (gone : row -> bool) (rows : list row) : list row :=
  filter (fun r => negb (gone r)) rows.

(** Every row of every table has exactly the columns of its table, in the
    order of the declaration. *)
Definition shaped (d : db) : bool :=
  forallb (fun t =>
    forallb (fun r =>
      if list_eq_dec string_dec (map fst r) (column_names t)
      then true else false) (d (tbl_name t))) schema.

(** Every foreign-key value of every row is held by a row of the referenced
    table. *)
Definition integrity (d : db) : Prop :=
  forall child fk parent pc r,
    In (child, fk, parent, pc) foreign_keys -> In r (d child) ->
    present pc (get fk r) (d parent) = true.

(** In every table the primary key is never NULL and never repeated. *)
Definition keys_unique (d : db) : Prop :=
  forall t, In t schema ->
    NoDup (map (get (primary_key t)) (d (tbl_name t)))
    /\ forall r, In r (d (tbl_name t)) -> get (primary_key t) r <> NULL.

(** The states the statements build from the empty database.  DELETE runs
    with fuel for the five levels of the schema. *)
Inductive reachable : db -> Prop :=
| reach_empty : reachable empty
| reach_insert (e : env) (t : table) (st : statement) (d : db) :
    In t schema -> reachable d -> reachable (fst (insert e t st d))
| reach_update (e : env) (t : table) (k : value) (st : statement) (d : db) :
    In t schema -> reachable d -> reachable (fst (update e t k st d))
| reach_delete (n : nat) (t : table) (where_ : row -> bool) (d d' : db)
               (o : outcome) :
    In t schema -> reachable d ->
    delete_from (5 + n) t where_ d = Some (d', o) -> reachable d'.

(** The row an UPDATE with key [k] works on. *)
Definition target (t : table) (k : value) (d : db) : option row :=
  match locate (primary_key t) k (d (tbl_name t)) with
  | Some (_, OLD, _) => Some OLD
  | None => None
  end.

(** Order on timestamps. *)
Definition not_after (a b : value) : Prop :=
  match a, b with
  | timestamptz x, timestamptz y => x <= y
  | _, _ => False
  end.

End Sql.

Module Web.

Local Open Scope string_scope.
Local Open Scope Z_scope.

(** ** Element trees *)

#[local] Set Warnings "-register-all".

Inductive prop : Type :=
| str (s : string)
| num (n : Z)
| asset (path : string).

Inductive node : Type :=
| element (tag : string) (key : option string)
          (props : list (string * prop)) (children : list node)
| text (s : string).

Definition tag (n : node) : string :=
  match n with
  | element t _ _ _ => t
  | text _ => ""
  end.

Definition key (n : node) : option string :=
  match n with
  | element _ k _ _ => k
  | text _ => None
  end.

Definition children (n : node) : list node :=
  match n with
  | element _ _ _ cs => cs
  | text _ => []
  end.

Fixpoint text_content (n : node) : string :=
  match n with
  | text s => s
  | element _ _ _ cs => String.concat "" (map text_content cs)
  end.

Fixpoint descendants (t : string) (n : node) : list node :=
  match n with
  | text _ => []
  | element t' _ _ cs =>
      (if String.eqb t' t then [n] else []) ++ flat_map (descendants t) cs
  end.

(** ** organizer-component.tsx *)

Record InfoCard : Type := {
  id : string;
  title : string;
  description : string;
  image : string
}.

Definition cardsData : list InfoCard := [
  {| id := "stellar-west-africa";
     title := "Stellar West Africa";
     description :=
       "Building and empowering the Stellar ecosystem in West Africa through education, developer support, and real-world blockchain adoption.";
     image := "/icons/stellar-west-africa.svg" |};
  {| id := "stellar-east-african-community";
     title := "Stellar East African Community";
     description :=
       "Building and empowering the Stellar ecosystem in East Africa through education, developer support, and real-world blockchain adoption.";
     image := "/icons/stellar-east-africa.svg" |};
  {| id := "stellar-india";
     title := "Stellar India";
     description :=
       "Building and empowering the Stellar ecosystem in West Africa through education, developer support, and real-world blockchain adoption.";
     image := "/icons/stellar-india.svg" |};
  {| id := "stellar-portugal";
     title := "Stellar Portugal";
     description :=
       "Building and empowering the Stellar ecosystem in West Africa through education, developer support, and real-world blockchain adoption.";
     image := "/icons/stellar-portugal.svg" |}
].

(** import group from "../../public/icons/user-group.svg" *)
Definition group : prop := asset "../../public/icons/user-group.svg".

Definition Button (_ : unit) : node :=
  element "button" None
    [("className", str "bg-yellow-300 pt-2 pl-3 pr-3 pb-2 flex gap-3 border border-yellow-300 rounded-lg items-center absolute top-40 right-5 hover:cursor-pointer")]
    [ element "Image" None
        [("src", group); ("alt", str "User Group Icon");
         ("className", str "w-5 h-5 lg:w-6 h-6")] [];
      element "span" None [("className", str "text-black font-semibold")]
        [text "Subscribe"] ].

(** The body of the arrow function given to [cardsData.map]. *)
Definition card_view (card : InfoCard) : node :=
  element "div" (Some (id card)) [("className", str "relative h-full")]
    [ element "section" None
        [("className", str "absolute border-10 rounded-2xl bg-yellow-400 border-yellow-400 w-102 h-58 -left-2 top-2 z-0")] [];
      element "div" None
        [("className", str "relative z-10 bg-black text-white p-5x border rounded-2xl lg:min-w-100
                    relative h-40 lg:h-58")]
        [ element "div" None [("className", str "absolute top-5 left-5")]
            [ element "Image" None
                [("src", str (image card)); ("alt", str (title card));
                 ("height", num 65); ("width", num 65);
                 ("className", str "relative z-10 border-4 border-black rounded-full")] [];
              element "div" None
                [("className", str "absolute -left-1 top-1 w-15 h-15 bg-white rounded-full z-0")] [] ];
          element "div" None
            [("className", str "text-lg font-semibold absolute left-25 top-10 w-full")]
            [text (title card)];
          element "p" None
            [("className", str "text-xs absolute left-25 top-20 w-65")]
            [text (description card)];
          Button tt ] ].

Definition OrganizerComponent (_ : unit) : node :=
  element "div" None
    [("className", str "p-10 ml-4 lg:ml-40 hidden lg:block")]
    [ element "div" None
        [("className", str "flex justify-start items-center gap-4 p-5 pb-10")]
        [ element "h1" None [("className", str "font-semibold md:text-4xl")]
            [text "Explore organizers"];
          element "Image" None
            [("src", group); ("alt", str "User Group Icon");
             ("className", str "w-5 h-5 lg:w-6 h-6 font-bold")] [] ];
      element "section" None
        [("className", str "flex justify-center items-center gap-10 overflow-x-auto scrollbar-hide pl-75 mr-50 h-65")]
        (map card_view cardsData) ].

(** ** Reading the rendered tree *)

(** The organizer cards: the children of the section that the component
    fills from [cardsData]. *)
Definition cards (root : node) : list node :=
  flat_map children
           (filter (fun n => String.eqb (tag n) "section") (children root)).

(** The identifier of a card is its React key. *)
Definition card_id (c : node) : string :=
  match key c with
  | Some k => k
  | None => ""
  end.

(** The description of a card is the text of its paragraph. *)
Definition card_description (c : node) : string :=
  String.concat "" (map text_content (descendants "p" c)).

Definition props (n : node) : list (string * prop) :=
  match n with
  | element _ _ ps _ => ps
  | text _ => []
  end.

Fixpoint lookup (name : string) (ps : list (string * prop)) : option prop :=
  match ps with
  | [] => None
  | (k, v) :: rest => if String.eqb k name then Some v else lookup name rest
  end.

(** The title a card shows: the text of the second block of its body. *)
Definition card_title (c : node) : string :=
  text_content (nth 1 (children (nth 1 (children c) (text ""))) (text "")).

(** The entry a rendered card stands for, read from its key, its first
    image (src and alt) and its paragraph. *)
Definition read_back (c : node) : option InfoCard :=
  match key c, descendants "Image" c with
  | Some k, img :: _ =>
      match lookup "src" (props img), lookup "alt" (props img) with
      | Some (str src), Some (str alt) =>
          Some {| id := k; title := alt;
                  description := card_description c; image := src |}
      | _, _ => None
      end
  | _, _ => None
  end.

End Web.

(** * Sample states

    Small databases built from [Sql.empty] by the statements shown, used to
    run the operations on concrete inputs. *)

Module Scenario.

Import Sql.
Local Open Scope string_scope.
Local Open Scope Z_scope.

Definition at_ (time : Z) (next : N) : env :=
  {| current_time := time; generated_uuid := next |}.

(** At time 10: INSERT INTO users (name, email, updated_at)
    VALUES ('Ada', 'ada@example.org', <time 100>). *)
Definition insert_ada : statement :=
  [("name", text "Ada"); ("email", text "ada@example.org");
   ("updated_at", timestamptz 100)].

Definition db_ada : db := fst (insert (at_ 10 1) users insert_ada empty).

Definition ada : row :=
  [("id", uuid 1); ("name", text "Ada"); ("email", text "ada@example.org");
   ("created_at", timestamptz 10); ("updated_at", timestamptz 100)].

(** INSERT INTO users (name, email) VALUES ('Bob', 'ada@example.org') and
    the same with an email of Bob's own. *)
Definition insert_bob_as_ada : statement :=
  [("name", text "Bob"); ("email", text "ada@example.org")].

Definition insert_bob : statement :=
  [("name", text "Bob"); ("email", text "bob@example.org")].

(** At time 20: UPDATE users SET name = 'Ada L.' WHERE id = 1. *)
Definition rename_ada : statement := [("name", text "Ada L.")].

Definition db_ada_renamed : db :=
  fst (update (at_ 20 2) users (uuid 1) rename_ada db_ada).

Definition ada_renamed : row :=
  [("id", uuid 1); ("name", text "Ada L."); ("email", text "ada@example.org");
   ("created_at", timestamptz 10); ("updated_at", timestamptz 20)].

(** Inserts in sequence; the n-th statement of the script runs at time n and
    is handed n by uuid_generate_v4(). *)
Fixpoint populate (n : N) (script : list (table * statement)) (d : db) : db :=
  match script with
  | [] => d
  | (t, st) :: rest =>
      populate (n + 1) rest (fst (insert (at_ (Z.of_N n) n) t st d))
  end.

(** One user, two organizers, and under each organizer one event with one
    tier, one ticket and one transaction.  Generated ids: user 1, organizers
    2 and 3, events 4 and 5, tiers 6 and 7, tickets 8 and 9, transactions 10
    and 11. *)
Definition box_office : db :=
  populate 1 [
    (users, [("name", text "Ada"); ("email", text "ada@example.org")]);
    (organizers, [("name", text "West"); ("contact_email", text "w@example.org")]);
    (organizers, [("name", text "East"); ("contact_email", text "e@example.org")]);
    (events, [("organizer_id", uuid 2); ("title", text "Meetup");
              ("location", text "Lagos"); ("start_time", timestamptz 50)]);
    (events, [("organizer_id", uuid 3); ("title", text "Summit");
              ("location", text "Nairobi"); ("start_time", timestamptz 60)]);
    (ticket_tiers, [("event_id", uuid 4); ("name", text "General");
                    ("price", decimal 1000); ("total_quantity", integer 10);
                    ("available_quantity", integer 9)]);
    (ticket_tiers, [("event_id", uuid 5); ("name", text "General");
                    ("price", decimal 2500); ("total_quantity", integer 20);
                    ("available_quantity", integer 19)]);
    (tickets, [("user_id", uuid 1); ("ticket_tier_id", uuid 6);
               ("status", text "active")]);
    (tickets, [("user_id", uuid 1); ("ticket_tier_id", uuid 7);
               ("status", text "active")]);
    (transactions, [("ticket_id", uuid 8); ("amount", decimal 1000);
                    ("status", text "completed")]);
    (transactions, [("ticket_id", uuid 9); ("amount", decimal 2500);
                    ("status", text "pending")])
  ] empty.

(** INSERT INTO tickets (status, user_id, ticket_tier_id)
    VALUES ('refunded', 1, 6). *)
Definition ticket_of_ada : statement :=
  [("user_id", uuid 1); ("ticket_tier_id", uuid 6)].

(** INSERT INTO transactions (status, ticket_id, amount)
    VALUES ('on-hold', 8, 10.00). *)
Definition payment_of_ada : statement :=
  [("ticket_id", uuid 8); ("amount", decimal 1000)].

(** INSERT INTO ticket_tiers (event_id, name, price, total_quantity,
    available_quantity) VALUES (4, 'VIP', 50.00, total, available). *)
Definition vip_tier (total available : Z) : statement :=
  [("event_id", uuid 4); ("name", text "VIP"); ("price", decimal 5000);
   ("total_quantity", integer total);
   ("available_quantity", integer available)].

(** Ada and Bob: Bob is inserted at time 30 with the generated id 2. *)
Definition db_ada_bob : db :=
  fst (insert (at_ 30 2) users insert_bob db_ada).

Definition bob : row :=
  [("id", uuid 2); ("name", text "Bob"); ("email", text "bob@example.org");
   ("created_at", timestamptz 30); ("updated_at", timestamptz 30)].

(** UPDATE users SET email = 'ada@example.org' WHERE id = 2. *)
Definition bob_takes_ada's_email : statement :=
  [("email", text "ada@example.org")].

(** UPDATE organizers SET id = 42 WHERE id = 2. *)
Definition renumber : statement := [("id", uuid 42)].

(** At time 20: UPDATE users SET updated_at = <time 5> WHERE id = 1. *)
Definition backdate_ada : statement := [("updated_at", timestamptz 5)].

End Scenario.

(** * Properties of the schema *)

Import Sql.

Ltac each_table H :=
  cbn in H; destruct H as [<-|[<-|[<-|[<-|[<-|[<-|[]]]]]]].

Ltac each_column H :=
  cbn in H;
  repeat match type of H with
         | _ \/ _ => destruct H as [<-|H]
         | False => contradiction
         end.

Section Basics.

Local Open Scope string_scope.

Lemma put_same (t : string) (rows : list row) (d : db) :
  put t rows d t = rows.
Proof. unfold put. now rewrite String.eqb_refl. Qed.

Lemma put_other (t t' : string) (rows : list row) (d : db) :
  t' <> t -> put t rows d t' = d t'.
Proof.
  intros Hne. unfold put.
  destruct (String.eqb_spec t' t); [contradiction | reflexivity].
Qed.

Lemma orelse_none (a b : option error) :
  a <|> b = None <-> a = None /\ b = None.
Proof. destruct a, b; cbn; intuition congruence. Qed.

Lemma first_error_none {A : Type} (check : A -> option error) (l : list A) :
  first_error check l = None <-> forall x, In x l -> check x = None.
Proof.
  induction l as [|x l IH]; cbn.
  - intuition.
  - destruct (check x) eqn:Hx.
    + split; [discriminate|]. intros H. rewrite <- Hx. symmetry.
      rewrite (H x) in Hx by now left. discriminate.
    + rewrite IH. split.
      * intros H y [<-|Hy]; auto.
      * intros H y Hy. apply H. now right.
Qed.

Lemma first_error_some {A : Type} (check : A -> option error) (l : list A)
      (err : error) :
  first_error check l = Some err -> exists x, In x l /\ check x = Some err.
Proof.
  induction l as [|x l IH]; cbn; [discriminate|].
  destruct (check x) eqn:Hx.
  - intros [= <-]. exists x. auto.
  - intros H. destruct (IH H) as (y & Hy & Hc). exists y. auto.
Qed.

(** *** Fields of a row *)

Lemma assoc_map_snd (f : string -> value -> value) (c : string) (r : row) :
  assoc c (map (fun kv => (fst kv, f (fst kv) (snd kv))) r)
  = option_map (f c) (assoc c r).
Proof.
  induction r as [|[k v] r IH]; cbn; [reflexivity|].
  destruct (String.eqb_spec k c) as [->|Hne]; [reflexivity | exact IH].
Qed.

Lemma assoc_some_in (c : string) (r : row) :
  In c (map fst r) -> exists v, assoc c r = Some v.
Proof.
  induction r as [|[k v] r IH]; cbn; [contradiction|].
  intros [->|Hin].
  - rewrite String.eqb_refl. eauto.
  - destruct (String.eqb k c); eauto.
Qed.

Lemma keys_set (c : string) (v : value) (r : row) :
  map fst (set c v r) = map fst r.
Proof. unfold set. rewrite map_map. reflexivity. Qed.

Lemma keys_assign (st : statement) (r : row) :
  map fst (assign st r) = map fst r.
Proof. unfold assign. rewrite map_map. reflexivity. Qed.

Lemma get_set_other (c c' : string) (v : value) (r : row) :
  c' <> c -> get c' (set c v r) = get c' r.
Proof.
  intros Hne. unfold get, set.
  rewrite (assoc_map_snd (fun k old => if String.eqb k c then v else old)).
  destruct (assoc c' r); cbn; [|reflexivity].
  destruct (String.eqb_spec c' c); [contradiction | reflexivity].
Qed.

Lemma get_set_same (c : string) (v : value) (r : row) :
  In c (map fst r) -> get c (set c v r) = v.
Proof.
  intros Hin. unfold get, set.
  rewrite (assoc_map_snd (fun k old => if String.eqb k c then v else old)).
  destruct (assoc_some_in c r Hin) as [w ->]. cbn.
  now rewrite String.eqb_refl.
Qed.

Lemma get_assign (st : statement) (c : string) (r : row) :
  In c (map fst r) ->
  get c (assign st r) = match assoc c st with
                        | Some v => v
                        | None => get c r
                        end.
Proof.
  intros Hin. unfold get, assign.
  rewrite (assoc_map_snd (fun k old => match assoc k st with
                                       | Some v => v
                                       | None => old
                                       end)).
  destruct (assoc_some_in c r Hin) as [w ->]. reflexivity.
Qed.

(** *** Triggers *)

Lemma in_schema (t : table) :
  In t schema ->
  t = users \/ t = organizers \/ t = events \/ t = ticket_tiers
  \/ t = tickets \/ t = transactions.
Proof. cbn. intuition. Qed.

(** No trigger fires on INSERT. *)
Lemma fire_before_insert (t : table) (e : env) (r : row) :
  fire BEFORE_INSERT t e r = r.
Proof. reflexivity. Qed.

(** On each of the six tables exactly one trigger fires BEFORE UPDATE, and
    it runs [update_updated_at_column]. *)
Lemma fire_before_update (t : table) (e : env) (r : row) :
  In t schema -> fire BEFORE_UPDATE t e r = update_updated_at_column e r.
Proof. intros Ht. each_table Ht; reflexivity. Qed.

Lemma primary_key_id (t : table) : In t schema -> primary_key t = "id".
Proof. intros Ht. each_table Ht; reflexivity. Qed.

Lemma has_updated_at (t : table) :
  In t schema -> In "updated_at" (column_names t).
Proof. intros Ht. each_table Ht; cbn; tauto. Qed.

End Basics.

Section Update.

Local Open Scope string_scope.
Local Open Scope Z_scope.
Local Open Scope list_scope.

Lemma locate_some (c : string) (k : value) (rows before after : list row)
      (x : row) :
  locate c k rows = Some (before, x, after) ->
  rows = before ++ x :: after /\ matches k (get c x) = true.
Proof.
  revert before. induction rows as [|r rows IH]; cbn; [discriminate|].
  intros before. destruct (matches k (get c r)) eqn:Hm.
  - intros [= <- <- <-]. auto.
  - destruct (locate c k rows) as [[[b y] a]|]; [|discriminate].
    intros [= <- <- <-]. destruct (IH b eq_refl) as [-> Hx]. auto.
Qed.

Lemma shaped_row (d : db) (t : table) (r : row) :
  shaped d = true -> In t schema -> In r (d (tbl_name t)) ->
  map fst r = column_names t.
Proof.
  unfold shaped. rewrite forallb_forall. intros Hs Ht Hr.
  specialize (Hs t Ht). rewrite forallb_forall in Hs.
  specialize (Hs r Hr).
  now destruct (list_eq_dec string_dec (map fst r) (column_names t)).
Qed.

Lemma target_some (t : table) (k : value) (d : db) (OLD : row) :
  target t k d = Some OLD ->
  In OLD (d (tbl_name t)) /\ matches k (get (primary_key t) OLD) = true.
Proof.
  unfold target.
  destruct (locate (primary_key t) k (d (tbl_name t))) as [[[b x] a]|] eqn:Hl;
    [|discriminate].
  intros [= ->]. apply locate_some in Hl. destruct Hl as [-> Hm].
  split; [|exact Hm]. apply in_or_app. right. now left.
Qed.

(** What a successful single-row UPDATE did. *)
Lemma update_done (e : env) (t : table) (k : value) (st : statement)
      (d d' : db) (NEW : row) :
  update e t k st d = (d', Done [NEW]) ->
  exists before OLD after,
    locate (primary_key t) k (d (tbl_name t)) = Some (before, OLD, after)
    /\ NEW = fire BEFORE_UPDATE t e (assign st OLD)
    /\ d' = put (tbl_name t) (before ++ NEW :: after) d.
Proof.
  unfold update.
  destruct (check_statement t st); [discriminate|].
  destruct (locate (primary_key t) k (d (tbl_name t))) as [[[b x] a]|];
    [|discriminate].
  match goal with |- context [match ?c with Some _ => _ | None => _ end] =>
    destruct c end; [discriminate|].
  intros [= <- <-]. exists b, x, a. auto.
Qed.

End Update.

Section UpdatedAt.

Local Open Scope string_scope.
Local Open Scope Z_scope.
Local Open Scope list_scope.

(** The row a successful UPDATE stores is the output of the trigger
    function on the row the SET list produced. *)
Lemma update_stores_trigger_output (t : table) (e : env) (k : value)
      (st : statement) (d d' : db) (NEW : row) :
  In t schema -> shaped d = true ->
  update e t k st d = (d', Done [NEW]) ->
  exists OLD,
    target t k d = Some OLD
    /\ map fst OLD = column_names t
    /\ NEW = update_updated_at_column e (assign st OLD)
    /\ In NEW (d' (tbl_name t)).
Proof.
  intros Ht Hs Hu.
  destruct (update_done _ _ _ _ _ _ _ Hu) as (b & OLD & a & Hl & -> & ->).
  exists OLD. unfold target. rewrite Hl.
  apply locate_some in Hl. destruct Hl as [Hrows _].
  repeat split.
  - apply (shaped_row d t OLD Hs Ht). rewrite Hrows.
    apply in_or_app. right. now left.
  - now apply fire_before_update.
  - rewrite put_same. apply in_or_app. right. now left.
Qed.

(** C9: the trigger function changes no column but updated_at.  After a
    successful UPDATE on any of the six tables the stored row is the output
    of [update_updated_at_column], and every column of it other than
    updated_at holds the value the statement supplied for it, or the prior
    value when the statement does not name it. *)
Theorem trigger_changes_only_updated_at (t : table) (e : env) (k : value)
        (st : statement) (d d' : db) (NEW : row) (c : string) :
  In t schema -> shaped d = true ->
  update e t k st d = (d', Done [NEW]) ->
  In c (column_names t) -> c <> "updated_at" ->
  exists OLD,
    target t k d = Some OLD
    /\ In NEW (d' (tbl_name t))
    /\ NEW = update_updated_at_column e (assign st OLD)
    /\ get c NEW = get c (assign st OLD)
    /\ get c NEW = match assoc c st with
                   | Some v => v
                   | None => get c OLD
                   end.
Proof.
  intros Ht Hs Hu Hc Hne.
  destruct (update_stores_trigger_output t e k st d d' NEW Ht Hs Hu)
    as (OLD & Htg & Hk & HN & Hin).
  exists OLD. split; [exact Htg|]. split; [exact Hin|]. subst NEW.
  repeat split; trivial.
  - unfold update_updated_at_column. now apply get_set_other.
  - unfold update_updated_at_column. rewrite get_set_other by assumption.
    apply get_assign. now rewrite Hk.
Qed.

Lemma trigger_changes_only_updated_at_witness :
  exists OLD,
    target users (uuid 1) Scenario.db_ada = Some OLD
    /\ In Scenario.ada_renamed (Scenario.db_ada_renamed "users")
    /\ Scenario.ada_renamed
       = update_updated_at_column (Scenario.at_ 20 2)
                                  (assign Scenario.rename_ada OLD)
    /\ get "email" Scenario.ada_renamed
       = get "email" (assign Scenario.rename_ada OLD)
    /\ get "email" Scenario.ada_renamed
       = match assoc "email" Scenario.rename_ada with
         | Some v => v
         | None => get "email" OLD
         end.
Proof.
  apply (trigger_changes_only_updated_at users (Scenario.at_ 20 2) (uuid 1)
           Scenario.rename_ada Scenario.db_ada Scenario.db_ada_renamed
           Scenario.ada_renamed "email").
  - cbn. tauto.
  - reflexivity.
  - reflexivity.
  - cbn. tauto.
  - discriminate.
Defined.

(** C3, as the schema has it: a successful UPDATE on any of the six tables
    stores NOW() in updated_at, whatever the statement supplied for that
    column.  The stored value is not before the previous updated_at, and
    not before created_at, exactly when that timestamp is not later than
    the current time. *)
Theorem update_sets_updated_at_to_now (t : table) (e : env) (k : value)
        (st : statement) (d d' : db) (NEW : row) :
  In t schema -> shaped d = true ->
  update e t k st d = (d', Done [NEW]) ->
  exists OLD,
    target t k d = Some OLD
    /\ In NEW (d' (tbl_name t))
    /\ get "updated_at" NEW = timestamptz (current_time e)
    /\ (forall p, get "updated_at" OLD = timestamptz p ->
          (not_after (get "updated_at" OLD) (get "updated_at" NEW)
           <-> p <= current_time e))
    /\ (forall p, get "created_at" NEW = timestamptz p ->
          (not_after (get "created_at" NEW) (get "updated_at" NEW)
           <-> p <= current_time e)).
Proof.
  intros Ht Hs Hu.
  destruct (update_stores_trigger_output t e k st d d' NEW Ht Hs Hu)
    as (OLD & Htg & Hk & HN & Hin).
  assert (Hnow : get "updated_at" NEW = timestamptz (current_time e)).
  { rewrite HN. unfold update_updated_at_column. apply get_set_same.
    rewrite keys_assign, Hk. now apply has_updated_at. }
  exists OLD. split; [exact Htg|]. split; [exact Hin|].
  split; [exact Hnow|]. rewrite Hnow.
  split; intros p Hp; rewrite Hp; cbn; reflexivity.
Qed.

Lemma update_sets_updated_at_to_now_witness :
  exists OLD,
    target users (uuid 1) Scenario.db_ada = Some OLD
    /\ In Scenario.ada_renamed (Scenario.db_ada_renamed "users")
    /\ get "updated_at" Scenario.ada_renamed = timestamptz 20
    /\ (forall p, get "updated_at" OLD = timestamptz p ->
          (not_after (get "updated_at" OLD)
                     (get "updated_at" Scenario.ada_renamed)
           <-> p <= 20))
    /\ (forall p, get "created_at" Scenario.ada_renamed = timestamptz p ->
          (not_after (get "created_at" Scenario.ada_renamed)
                     (get "updated_at" Scenario.ada_renamed)
           <-> p <= 20)).
Proof.
  apply (update_sets_updated_at_to_now users (Scenario.at_ 20 2) (uuid 1)
           Scenario.rename_ada Scenario.db_ada Scenario.db_ada_renamed
           Scenario.ada_renamed).
  - cbn. tauto.
  - reflexivity.
  - reflexivity.
Defined.

(** C3, as stated, fails: Ada's row was inserted at time 10 with an explicit
    updated_at of 100; the UPDATE at time 20 succeeds and stores 20, which
    is before the previous updated_at. *)
Lemma update_can_move_updated_at_back :
  Scenario.db_ada "users" = [Scenario.ada]
  /\ target users (uuid 1) Scenario.db_ada = Some Scenario.ada
  /\ update (Scenario.at_ 20 2) users (uuid 1) Scenario.rename_ada
            Scenario.db_ada
     = (Scenario.db_ada_renamed, Done [Scenario.ada_renamed])
  /\ Scenario.db_ada_renamed "users" = [Scenario.ada_renamed]
  /\ get "updated_at" Scenario.ada = timestamptz 100
  /\ get "updated_at" Scenario.ada_renamed = timestamptz 20
  /\ ~ not_after (get "updated_at" Scenario.ada)
                 (get "updated_at" Scenario.ada_renamed).
Proof.
  repeat split; try reflexivity.
  cbn. lia.
Qed.

(** A value the statement supplies for updated_at is overwritten too. *)
Example supplied_updated_at_is_overwritten :
  update (Scenario.at_ 20 2) users (uuid 1) Scenario.backdate_ada
         Scenario.db_ada
  = (put "users"
         [[("id", uuid 1); ("name", text "Ada");
           ("email", text "ada@example.org");
           ("created_at", timestamptz 10); ("updated_at", timestamptz 20)]]
         Scenario.db_ada,
     Done [[("id", uuid 1); ("name", text "Ada");
            ("email", text "ada@example.org");
            ("created_at", timestamptz 10); ("updated_at", timestamptz 20)]]).
Proof. reflexivity. Qed.

End UpdatedAt.

Section Delete.

Local Open Scope string_scope.
Local Open Scope list_scope.

Lemma value_eqb_eq (a b : value) : value_eqb a b = true <-> a = b.
Proof.
  destruct a, b; cbn; try (split; [discriminate | congruence]);
    try tauto.
  - rewrite N.eqb_eq. split; congruence.
  - rewrite String.eqb_eq. split; congruence.
  - rewrite Z.eqb_eq. split; congruence.
  - rewrite Z.eqb_eq. split; congruence.
  - rewrite Z.eqb_eq. split; congruence.
Qed.

Lemma matches_true (a b : value) :
  matches a b = true <-> a <> NULL /\ a = b.
Proof.
  unfold matches. destruct a; try (rewrite value_eqb_eq; split;
    [intros H; split; [discriminate | exact H] | tauto]).
  split; [discriminate | intros [H _]; now elim H].
Qed.

Lemma present_true (c : string) (v : value) (rows : list row) :
  present c v rows = true <->
  v <> NULL /\ exists r, In r rows /\ get c r = v.
Proof.
  unfold present. rewrite existsb_exists. split.
  - intros (r & Hr & Hm). apply matches_true in Hm. destruct Hm as [Hv He].
    split; [exact Hv|]. exists r. split; [exact Hr | now symmetry].
  - intros (Hv & r & Hr & He). exists r. split; [exact Hr|].
    apply matches_true. split; [exact Hv | now symmetry].
Qed.

(** Referencing one of the rows whose id is [o] is having [o] in the
    foreign-key column, provided such a row exists. *)
Lemma references_selected (fk : string) (o : value) (parents : list row)
      (r : row) :
  present "id" o parents = true ->
  references fk (filter (equals "id" o) parents) r = equals fk o r.
Proof.
  intros Hp. apply present_true in Hp. destruct Hp as (Ho & p & Hin & Hid).
  apply Bool.eq_true_iff_eq. unfold references, equals.
  rewrite existsb_exists, matches_true. split.
  - intros (q & Hq & Hm). apply filter_In in Hq. destruct Hq as [_ Hq].
    apply matches_true in Hq. apply matches_true in Hm.
    destruct Hq as [_ Hq], Hm as [_ Hm]. split; congruence.
  - intros [_ He]. exists p. split.
    + apply filter_In. split; [exact Hin|]. apply matches_true.
      split; congruence.
    + apply matches_true. split; congruence.
Qed.

(** The cascade that starts at organizers, with fuel for its five levels:
    organizers, events, ticket_tiers, tickets, transactions. *)
Lemma cascade_from_organizers (d : db) (gone : row -> bool) (n : nat) :
  let O := filter gone (d "organizers") in
  let E := filter (references "organizer_id" O) (d "events") in
  let T := filter (references "event_id" E) (d "ticket_tiers") in
  let K := filter (references "ticket_tier_id" T) (d "tickets") in
  cascade (5 + n) "organizers" gone d
  = Some (inr
      (put "transactions"
           (without (references "ticket_id" K) (d "transactions"))
      (put "tickets"
           (without (references "ticket_tier_id" T) (d "tickets"))
      (put "ticket_tiers"
           (without (references "event_id" E) (d "ticket_tiers"))
      (put "events"
           (without (references "organizer_id" O) (d "events"))
      (put "organizers" (without gone (d "organizers")) d)))))).
Proof. reflexivity. Qed.

(** C1: deleting an organizer deletes exactly that organizer, the events
    whose organizer_id is its id, the ticket tiers whose event_id references
    one of those events, the tickets whose ticket_tier_id references one of
    those tiers and the transactions whose ticket_id references one of
    those tickets.  Every table is left with all its other rows, in their
    order; users and anything outside these tables are untouched. *)
Theorem delete_organizer_cascades (d : db) (o : value) (n : nat) :
  present "id" o (d "organizers") = true ->
  let O := filter (equals "id" o) (d "organizers") in
  let E := filter (equals "organizer_id" o) (d "events") in
  let T := filter (references "event_id" E) (d "ticket_tiers") in
  let K := filter (references "ticket_tier_id" T) (d "tickets") in
  exists d',
    delete_from (5 + n) organizers (equals "id" o) d = Some (d', Done O)
    /\ d' "organizers" = without (equals "id" o) (d "organizers")
    /\ d' "events" = without (equals "organizer_id" o) (d "events")
    /\ d' "ticket_tiers" = without (references "event_id" E) (d "ticket_tiers")
    /\ d' "tickets" = without (references "ticket_tier_id" T) (d "tickets")
    /\ d' "transactions" = without (references "ticket_id" K) (d "transactions")
    /\ d' "users" = d "users"
    /\ forall t,
         ~ In t ["organizers"; "events"; "ticket_tiers"; "tickets";
                 "transactions"] ->
         d' t = d t.
Proof.
  intros Hp O E T K.
  assert (HE : filter (references "organizer_id" O) (d "events") = E).
  { apply filter_ext. intros r. now apply references_selected. }
  assert (HE' : without (references "organizer_id" O) (d "events")
                = without (equals "organizer_id" o) (d "events")).
  { apply filter_ext. intros r. f_equal. now apply references_selected. }
  unfold delete_from.
  change (tbl_name organizers) with "organizers".
  rewrite cascade_from_organizers. cbv zeta. fold O.
  rewrite HE, HE'. fold T. fold K.
  eexists. split; [reflexivity|].
  repeat (split; [reflexivity|]).
  intros t Ht. cbn in Ht.
  rewrite !put_other by (intros ->; apply Ht; tauto).
  reflexivity.
Qed.

Lemma delete_organizer_cascades_witness :
  let d := Scenario.box_office in
  let o := uuid 2 in
  let O := filter (equals "id" o) (d "organizers") in
  let E := filter (equals "organizer_id" o) (d "events") in
  let T := filter (references "event_id" E) (d "ticket_tiers") in
  let K := filter (references "ticket_tier_id" T) (d "tickets") in
  exists d',
    delete_from 5 organizers (equals "id" o) d = Some (d', Done O)
    /\ d' "organizers" = without (equals "id" o) (d "organizers")
    /\ d' "events" = without (equals "organizer_id" o) (d "events")
    /\ d' "ticket_tiers" = without (references "event_id" E) (d "ticket_tiers")
    /\ d' "tickets" = without (references "ticket_tier_id" T) (d "tickets")
    /\ d' "transactions" = without (references "ticket_id" K) (d "transactions")
    /\ d' "users" = d "users"
    /\ forall t,
         ~ In t ["organizers"; "events"; "ticket_tiers"; "tickets";
                 "transactions"] ->
         d' t = d t.
Proof.
  apply (delete_organizer_cascades Scenario.box_office (uuid 2) 0).
  reflexivity.
Defined.

End Delete.

Section Insert.

Local Open Scope string_scope.
Local Open Scope list_scope.

Lemma present_null (c : string) (rows : list row) : present c NULL rows = false.
Proof. unfold present. induction rows; cbn; auto. Qed.

Lemma first_error_exists {A : Type} (check : A -> option error) (l : list A)
      (x : A) :
  In x l -> check x <> None ->
  exists y err, In y l /\ check y = Some err /\ first_error check l = Some err.
Proof.
  induction l as [|z l IH]; cbn; [contradiction|].
  intros Hin Hx. destruct (check z) eqn:Hz.
  - exists z, e. auto.
  - destruct Hin as [->|Hin]; [congruence|].
    destruct (IH Hin Hx) as (y & err & Hy & Hc & Hf). exists y, err. auto.
Qed.

Lemma check_not_null_none (t : table) (r : row) :
  check_not_null t r = None <->
  forall c, In c (tbl_columns t) -> is_not_null c = true ->
            get (col_name c) r <> NULL.
Proof.
  unfold check_not_null. rewrite first_error_none. split.
  - intros H c Hc Hn. specialize (H c Hc). rewrite Hn in H.
    destruct (get (col_name c) r); [discriminate | discriminate ..].
  - intros H c Hc. destruct (is_not_null c) eqn:Hn; [|reflexivity].
    specialize (H c Hc Hn). destruct (get (col_name c) r); congruence.
Qed.

Lemma check_unique_none (t : table) (r : row) (rows : list row) :
  check_unique t r rows = None <->
  forall c, In c (tbl_columns t) -> is_unique c = true ->
            present (col_name c) (get (col_name c) r) rows = false.
Proof.
  unfold check_unique. rewrite first_error_none. split.
  - intros H c Hc Hu. specialize (H c Hc). rewrite Hu in H. cbn in H.
    destruct (present (col_name c) (get (col_name c) r) rows);
      [discriminate | reflexivity].
  - intros H c Hc. destruct (is_unique c) eqn:Hu; [|reflexivity].
    now rewrite (H c Hc Hu).
Qed.

Lemma check_unique_some (t : table) (r : row) (rows : list row) (err : error) :
  check_unique t r rows = Some err ->
  exists c, In c (tbl_columns t) /\ is_unique c = true
            /\ present (col_name c) (get (col_name c) r) rows = true
            /\ err = unique_violation (tbl_name t) (col_name c).
Proof.
  unfold check_unique. intros H. apply first_error_some in H.
  destruct H as (c & Hc & H). exists c.
  destruct (is_unique c); [|discriminate]. cbn in H.
  destruct (present (col_name c) (get (col_name c) r) rows); [|discriminate].
  injection H as <-. auto.
Qed.

Lemma in_references_of (c : column) (p pc : string) :
  In (p, pc) (references_of c) <->
  exists a, In (REFERENCES p pc a) (col_constraints c).
Proof.
  unfold references_of. rewrite in_flat_map. split.
  - intros (k & Hk & Hin). destruct k; cbn in Hin; try contradiction.
    destruct Hin as [[= <- <-]|[]]. eauto.
  - intros (a & Hk). exists (REFERENCES p pc a). split; [exact Hk|].
    cbn. now left.
Qed.

Lemma check_references_none (t : table) (r : row) (d : db) :
  (forall c p pc a, In c (tbl_columns t) ->
     In (REFERENCES p pc a) (col_constraints c) ->
     present pc (get (col_name c) r) (d p) = true) ->
  check_references t (fun _ => true) r d = None.
Proof.
  intros H. unfold check_references. apply first_error_none. intros c Hc.
  apply first_error_none. intros [p pc] Hr.
  apply in_references_of in Hr. destruct Hr as [a Ha].
  specialize (H c p pc a Hc Ha). cbn [fst snd].
  destruct (get (col_name c) r) eqn:Hv; [reflexivity|..]; now rewrite H.
Qed.

Lemma check_references_some (t : table) (r : row) (d : db) (err : error) :
  check_references t (fun _ => true) r d = Some err ->
  exists c p pc a,
    In c (tbl_columns t) /\ In (REFERENCES p pc a) (col_constraints c)
    /\ get (col_name c) r <> NULL
    /\ present pc (get (col_name c) r) (d p) = false
    /\ err = foreign_key_violation (tbl_name t) (col_name c).
Proof.
  unfold check_references. intros H. apply first_error_some in H.
  destruct H as (c & Hc & H). apply first_error_some in H.
  destruct H as ([p pc] & Hr & H). cbn [fst snd] in H.
  apply in_references_of in Hr. destruct Hr as [a Ha].
  exists c, p, pc, a.
  destruct (get (col_name c) r) eqn:Hv; [discriminate|..];
    (destruct (present pc _ (d p)) eqn:Hp; [discriminate|];
     injection H as <-; repeat split; auto; discriminate).
Qed.

(** A foreign-key value that is missing from the referenced column makes
    the check fail. *)
Lemma check_references_missing (t : table) (r : row) (d : db) (c : column)
      (p pc : string) (a : action) :
  In c (tbl_columns t) -> In (REFERENCES p pc a) (col_constraints c) ->
  get (col_name c) r <> NULL ->
  present pc (get (col_name c) r) (d p) = false ->
  exists err, check_references t (fun _ => true) r d = Some err.
Proof.
  intros Hc Ha Hv Hp. unfold check_references.
  set (inner := fun c0 : column => first_error _ (references_of c0)).
  assert (Hin : inner c <> None).
  { unfold inner. intros Hn.
    pose proof (proj1 (first_error_none _ _) Hn (p, pc)) as H.
    cbn [fst snd] in H.
    assert (Hr : In (p, pc) (references_of c))
      by (apply in_references_of; eauto).
    specialize (H Hr). revert H Hp Hv.
    destruct (get (col_name c) r); intros H Hp Hv; [congruence|..];
      rewrite Hp in H; discriminate. }
  destruct (first_error_exists inner (tbl_columns t) c Hc Hin)
    as (y & err & _ & _ & Hf).
  exists err. exact Hf.
Qed.

(** When every check passes the row is appended to its table. *)
Lemma insert_done (e : env) (t : table) (st : statement) (d : db) :
  let NEW := new_row e t st in
  check_statement t st = None ->
  check_not_null t NEW = None ->
  check_unique t NEW (d (tbl_name t)) = None ->
  check_references t (fun _ => true) NEW d = None ->
  insert e t st d
  = (put (tbl_name t) (d (tbl_name t) ++ [NEW]) d, Done [NEW]).
Proof.
  intros NEW H1 H2 H3 H4. unfold insert. rewrite fire_before_insert.
  fold NEW. now rewrite H1, H2, H3, H4.
Qed.

(** A statement that fails leaves the whole database as it was. *)
Lemma insert_failed (e : env) (t : table) (st : statement) (d d' : db)
      (err : error) :
  insert e t st d = (d', Failed err) -> d' = d.
Proof.
  unfold insert.
  match goal with |- context [match ?c with Some _ => _ | None => _ end] =>
    destruct c end; now intros [= <-].
Qed.

End Insert.

Section UniqueEmail.

Local Open Scope string_scope.
Local Open Scope list_scope.

Local Arguments present : simpl never.
Local Arguments get : simpl never.
Local Arguments new_row : simpl never.

Lemma check_unique_users (r : row) (rows : list row) :
  check_unique users r rows
  = if present "id" (get "id" r) rows
    then Some (unique_violation "users" "id")
    else if present "email" (get "email" r) rows
         then Some (unique_violation "users" "email")
         else None.
Proof.
  unfold check_unique. cbn.
  destruct (present "id" (get "id" r) rows),
           (present "email" (get "email" r) rows); reflexivity.
Qed.

(** users has no foreign key. *)
Lemma check_references_users (r : row) (d : db) :
  check_references users (fun _ => true) r d = None.
Proof. reflexivity. Qed.

(** C2: an INSERT INTO users whose email is already held by a users row
    fails and leaves the database as it was; when the statement is well
    formed and gives every NOT NULL column a value, the failure is a
    uniqueness violation.  With an email held by no row such a statement
    succeeds and appends the new row, its id being unused. *)
Theorem users_email_unique (e : env) (st : statement) (d : db) :
  let NEW := new_row e users st in
  (present "email" (get "email" NEW) (d "users") = true ->
   (exists err, insert e users st d = (d, Failed err))
   /\ (check_statement users st = None ->
       check_not_null users NEW = None ->
       exists c,
         insert e users st d = (d, Failed (unique_violation "users" c))))
  /\ (present "email" (get "email" NEW) (d "users") = false ->
      check_statement users st = None ->
      check_not_null users NEW = None ->
      present "id" (get "id" NEW) (d "users") = false ->
      insert e users st d
      = (put "users" (d "users" ++ [NEW]) d, Done [NEW])).
Proof.
  intros NEW. split.
  - intros Hdup.
    assert (Hu : exists c, check_unique users NEW (d "users")
                           = Some (unique_violation "users" c)).
    { rewrite check_unique_users, Hdup.
      destruct (present "id" (get "id" NEW) (d "users")); eauto. }
    destruct Hu as [c Hu].
    unfold insert. rewrite fire_before_insert. fold NEW.
    cbn [tbl_name users]. rewrite Hu. split.
    + destruct (check_statement users st); [cbn; eauto|].
      destruct (check_not_null users NEW); cbn; eauto.
    + intros Hst Hnn. rewrite Hst, Hnn. cbn. eauto.
  - intros Hnew Hst Hnn Hid. apply insert_done; trivial.
    fold NEW. cbn [tbl_name users]. now rewrite check_unique_users, Hid, Hnew.
Qed.

Lemma users_email_unique_witness :
  (exists c,
      insert (Scenario.at_ 30 2) users Scenario.insert_bob_as_ada
             Scenario.db_ada
      = (Scenario.db_ada, Failed (unique_violation "users" c)))
  /\ insert (Scenario.at_ 30 2) users Scenario.insert_bob Scenario.db_ada
     = (put "users"
            (Scenario.db_ada "users"
             ++ [[("id", uuid 2); ("name", text "Bob");
                  ("email", text "bob@example.org");
                  ("created_at", timestamptz 30);
                  ("updated_at", timestamptz 30)]])
            Scenario.db_ada,
        Done [[("id", uuid 2); ("name", text "Bob");
               ("email", text "bob@example.org");
               ("created_at", timestamptz 30);
               ("updated_at", timestamptz 30)]]).
Proof.
  split.
  - apply (proj1 (users_email_unique (Scenario.at_ 30 2)
                    Scenario.insert_bob_as_ada Scenario.db_ada));
      reflexivity.
  - apply (proj2 (users_email_unique (Scenario.at_ 30 2)
                    Scenario.insert_bob Scenario.db_ada)); reflexivity.
Defined.

End UniqueEmail.

Section ForeignKeys.

Local Open Scope string_scope.
Local Open Scope list_scope.

(** The five foreign keys of the schema. *)
Lemma foreign_keys_of_schema :
  foreign_keys
  = [("events", "organizer_id", "organizers", "id");
     ("ticket_tiers", "event_id", "events", "id");
     ("tickets", "user_id", "users", "id");
     ("tickets", "ticket_tier_id", "ticket_tiers", "id");
     ("transactions", "ticket_id", "tickets", "id")].
Proof. reflexivity. Qed.

(** Every foreign-key column is declared NOT NULL. *)
Lemma foreign_keys_not_null (t : table) (c : column) (p pc : string)
      (a : action) :
  In t schema -> In c (tbl_columns t) ->
  In (REFERENCES p pc a) (col_constraints c) ->
  is_not_null c = true.
Proof.
  intros Ht Hc Ha. each_table Ht; cbn in Hc;
    repeat (destruct Hc as [<-|Hc]; [first [reflexivity | exfalso; cbn in Ha; intuition discriminate]|]);
    contradiction.
Qed.

(** C6: an INSERT whose value for a foreign-key column is in no row of the
    referenced table fails and leaves the database as it was; when the
    statement is well formed, gives every NOT NULL column a value and
    collides with no key, the failure is a foreign-key violation.  The
    foreign keys are those of [foreign_keys_of_schema]: events.organizer_id,
    ticket_tiers.event_id, tickets.user_id, tickets.ticket_tier_id and
    transactions.ticket_id. *)
Theorem orphan_insert_fails (t : table) (c : column) (p pc : string)
        (a : action) (e : env) (st : statement) (d : db) :
  In t schema -> In c (tbl_columns t) ->
  In (REFERENCES p pc a) (col_constraints c) ->
  let NEW := new_row e t st in
  present pc (get (col_name c) NEW) (d p) = false ->
  (exists err, insert e t st d = (d, Failed err))
  /\ (check_statement t st = None ->
      check_not_null t NEW = None ->
      check_unique t NEW (d (tbl_name t)) = None ->
      exists c',
        In c' (column_names t)
        /\ insert e t st d
           = (d, Failed (foreign_key_violation (tbl_name t) c'))).
Proof.
  intros Ht Hc Ha NEW Hp.
  assert (Hfk : check_not_null t NEW = None ->
                exists c', In c' (column_names t)
                  /\ check_references t (fun _ => true) NEW d
                     = Some (foreign_key_violation (tbl_name t) c')).
  { intros Hnn.
    assert (Hv : get (col_name c) NEW <> NULL).
    { apply (proj1 (check_not_null_none t NEW) Hnn c Hc).
      now apply (foreign_keys_not_null t c p pc a). }
    destruct (check_references_missing t NEW d c p pc a Hc Ha Hv Hp)
      as [err Herr].
    destruct (check_references_some t NEW d err Herr)
      as (c' & _ & _ & _ & Hc' & _ & _ & _ & ->).
    exists (col_name c'). split; [now apply in_map | exact Herr]. }
  unfold insert. rewrite fire_before_insert. fold NEW. split.
  - destruct (check_statement t st); [cbn; eauto|].
    destruct (check_not_null t NEW) eqn:Hnn; [cbn; eauto|].
    destruct (check_unique t NEW (d (tbl_name t))); [cbn; eauto|].
    destruct (Hfk eq_refl) as (c' & _ & ->). cbn. eauto.
  - intros Hst Hnn Hu. destruct (Hfk Hnn) as (c' & Hin & Hr).
    rewrite Hst, Hnn, Hu, Hr. cbn. eauto.
Qed.

End ForeignKeys.

Section FreeColumns.

Local Open Scope string_scope.
Local Open Scope list_scope.

Lemma column_eq_dec (a b : column) : {a = b} + {a <> b}.
Proof.
  repeat decide equality; try apply string_dec; try apply N.eq_dec;
    try apply Z.eq_dec.
Defined.

Lemma column_by_name (cols : list column) (c c' : column) :
  NoDup (map col_name cols) -> In c cols -> In c' cols ->
  col_name c' = col_name c -> c' = c.
Proof.
  induction cols as [|x cols IH]; cbn; [contradiction|].
  intros Hnd Hc Hc' Hn. inversion Hnd as [|? ? Hx Hnd']; subst.
  destruct Hc as [->|Hc], Hc' as [->|Hc']; auto.
  - elim Hx. rewrite <- Hn. now apply in_map.
  - elim Hx. rewrite Hn. now apply in_map.
Qed.

Lemma find_column_in (t : table) (c : column) :
  NoDup (column_names t) -> In c (tbl_columns t) ->
  find_column t (col_name c) = Some c.
Proof.
  unfold find_column, column_names. intros Hnd Hc.
  destruct (find (fun k => String.eqb (col_name k) (col_name c))
                 (tbl_columns t)) as [c'|] eqn:Hf.
  - apply find_some in Hf. destruct Hf as [Hc' Hn].
    apply String.eqb_eq in Hn.
    now rewrite (column_by_name (tbl_columns t) c c' Hnd Hc Hc' Hn).
  - apply (find_none _ _ Hf) in Hc. now rewrite String.eqb_refl in Hc.
Qed.

Lemma assoc_new_row (e : env) (st : statement) (cols : list column)
      (c : column) :
  NoDup (map col_name cols) -> In c cols ->
  assoc (col_name c) (map (fun k => (col_name k, supplied e st k)) cols)
  = Some (supplied e st c).
Proof.
  induction cols as [|x cols IH]; cbn; [contradiction|].
  intros Hnd Hc. inversion Hnd as [|? ? Hx Hnd']; subst.
  destruct Hc as [->|Hc].
  - now rewrite String.eqb_refl.
  - destruct (String.eqb_spec (col_name x) (col_name c)) as [Hn|_].
    + elim Hx. rewrite Hn. now apply in_map.
    + now apply IH.
Qed.

(** The row an INSERT builds holds, in each column, what the statement
    supplies for it or the column's default. *)
Lemma get_new_row (e : env) (t : table) (st : statement) (c : column) :
  NoDup (column_names t) -> In c (tbl_columns t) ->
  get (col_name c) (new_row e t st) = supplied e st c.
Proof.
  intros Hnd Hc. unfold get, new_row. now rewrite assoc_new_row.
Qed.

Lemma keys_new_row (e : env) (t : table) (st : statement) :
  map fst (new_row e t st) = column_names t.
Proof. unfold new_row, column_names. rewrite map_map. reflexivity. Qed.

(** Naming one more column in the statement assigns that field. *)
Lemma new_row_cons (e : env) (t : table) (c : string) (v : value)
      (st : statement) :
  new_row e t ((c, v) :: st) = set c v (new_row e t st).
Proof.
  unfold new_row, set. rewrite map_map. apply map_ext. intros k.
  unfold supplied. cbn. rewrite String.eqb_sym.
  now destruct (String.eqb (col_name k) c).
Qed.

Lemma schema_columns_distinct (t : table) :
  In t schema -> NoDup (column_names t).
Proof.
  intros Ht. each_table Ht; cbn;
    repeat (constructor; [cbn; intuition discriminate|]); constructor.
Qed.

(** A column that is neither unique nor a foreign key accepts any value of
    its type that is not NULL: the statement succeeds as soon as the rest of
    the row passes the checks of the other columns. *)
Lemma unconstrained_column_accepts (e : env) (t : table) (c : column)
      (v : value) (st : statement) (d : db) :
  let R := new_row e t st in
  let NEW := set (col_name c) v R in
  NoDup (column_names t) -> In c (tbl_columns t) ->
  is_unique c = false -> references_of c = [] ->
  has_type (col_type c) v = true -> v <> NULL ->
  assoc (col_name c) st = None ->
  check_statement t st = None ->
  (forall c', In c' (tbl_columns t) -> is_not_null c' = true ->
              col_name c' <> col_name c -> get (col_name c') R <> NULL) ->
  check_unique t R (d (tbl_name t)) = None ->
  check_references t (fun _ => true) R d = None ->
  insert e t ((col_name c, v) :: st) d
  = (put (tbl_name t) (d (tbl_name t) ++ [NEW]) d, Done [NEW])
  /\ get (col_name c) NEW = v.
Proof.
  intros R NEW Hnd Hc Hu Hr Hty Hv Hst0 Hst Hnn Huq Hfk.
  assert (Hget : get (col_name c) NEW = v).
  { apply get_set_same. unfold R. rewrite keys_new_row. now apply in_map. }
  assert (Hother : forall c', In c' (tbl_columns t) -> c' <> c ->
                     get (col_name c') NEW = get (col_name c') R).
  { intros c' Hc' Hne. apply get_set_other. intros Hn. apply Hne.
    exact (column_by_name _ c c' Hnd Hc Hc' Hn). }
  split; [|exact Hget].
  unfold NEW, R. rewrite <- new_row_cons. apply insert_done.
  - cbn [check_statement]. rewrite find_column_in by assumption.
    now rewrite Hty, Hst0.
  - rewrite new_row_cons. fold R. fold NEW. apply check_not_null_none.
    intros c' Hc' Hn'.
    destruct (string_dec (col_name c') (col_name c)) as [Heq|Hne].
    + rewrite Heq, Hget. exact Hv.
    + rewrite (Hother c' Hc') by (intros ->; now apply Hne).
      now apply Hnn.
  - rewrite new_row_cons. fold R. fold NEW. apply check_unique_none.
    intros c' Hc' Hu'.
    assert (Hne : c' <> c) by (intros ->; congruence).
    rewrite (Hother c' Hc' Hne).
    exact (proj1 (check_unique_none t R _) Huq c' Hc' Hu').
  - rewrite new_row_cons. fold R. fold NEW. unfold check_references.
    apply first_error_none. intros c' Hc'.
    unfold check_references in Hfk.
    pose proof (proj1 (first_error_none _ _) Hfk c' Hc') as Hc0.
    cbn beta in Hc0 |- *.
    destruct (column_eq_dec c' c) as [->|Hne].
    + now rewrite Hr.
    + now rewrite (Hother c' Hc' Hne).
Qed.

End FreeColumns.

Section Status.

Local Open Scope string_scope.
Local Open Scope list_scope.

Lemma only_id_is_unique (t : table) (c : column) :
  In t schema -> t <> users -> In c (tbl_columns t) -> is_unique c = true ->
  col_name c = "id".
Proof.
  intros Ht Hne Hc Hu.
  each_table Ht; try congruence; each_column Hc;
    first [reflexivity | discriminate].
Qed.

Lemma foreign_key_listed (t : table) (c : column) (p pc : string)
      (a : action) :
  In t schema -> In c (tbl_columns t) ->
  In (REFERENCES p pc a) (col_constraints c) ->
  pc = "id" /\ In (tbl_name t, col_name c, p, "id") foreign_keys.
Proof.
  intros Ht Hc Ha.
  each_table Ht; each_column Hc; cbn in Ha;
    repeat (destruct Ha as [Ha|Ha]; [try discriminate|]);
    try contradiction;
    injection Ha as <- <- <-; (split; [reflexivity | cbn; tauto]).
Qed.

(** The checks on keys, stated on the values of the row. *)
Lemma key_checks_pass (t : table) (r : row) (d : db) :
  In t schema -> t <> users ->
  present "id" (get "id" r) (d (tbl_name t)) = false ->
  (forall fk parent, In (tbl_name t, fk, parent, "id") foreign_keys ->
                     present "id" (get fk r) (d parent) = true) ->
  check_unique t r (d (tbl_name t)) = None
  /\ check_references t (fun _ => true) r d = None.
Proof.
  intros Ht Hne Hid Hfk. split.
  - apply check_unique_none. intros c Hc Hu.
    now rewrite (only_id_is_unique t c Ht Hne Hc Hu).
  - apply check_references_none. intros c p pc a Hc Ha.
    destruct (foreign_key_listed t c p pc a Ht Hc Ha) as [-> Hin].
    now apply Hfk.
Qed.

(** C7: tickets.status and transactions.status take any text.  Whatever
    the text [s], INSERT ... (status, ...) VALUES (s, ...) succeeds and
    stores [s], provided the rest of the statement is well formed, gives
    the other NOT NULL columns a value, collides with no id and has its
    foreign keys present in their parent tables. *)
Theorem status_is_free_text (t : table) (e : env) (s : string)
        (st : statement) (d : db) :
  t = tickets \/ t = transactions ->
  let R := new_row e t st in
  let NEW := set "status" (text s) R in
  assoc "status" st = None ->
  check_statement t st = None ->
  (forall c, In c (tbl_columns t) -> is_not_null c = true ->
             col_name c <> "status" -> get (col_name c) R <> NULL) ->
  present "id" (get "id" R) (d (tbl_name t)) = false ->
  (forall fk parent, In (tbl_name t, fk, parent, "id") foreign_keys ->
                     present "id" (get fk R) (d parent) = true) ->
  insert e t (("status", text s) :: st) d
  = (put (tbl_name t) (d (tbl_name t) ++ [NEW]) d, Done [NEW])
  /\ get "status" NEW = text s.
Proof.
  intros Ht R NEW Hst0 Hst Hnn Hid Hfk.
  assert (Hin : In t schema) by (destruct Ht as [->| ->]; cbn; tauto).
  assert (Hne : t <> users) by (destruct Ht as [->| ->]; discriminate).
  destruct (key_checks_pass t R d Hin Hne Hid Hfk) as [Hu Hr].
  destruct Ht as [->| ->].
  - apply (unconstrained_column_accepts e tickets
             (col "status" TEXT [NOT_NULL]) (text s) st d); trivial.
    + now apply schema_columns_distinct.
    + cbn. tauto.
    + discriminate.
  - apply (unconstrained_column_accepts e transactions
             (col "status" TEXT [NOT_NULL]) (text s) st d); trivial.
    + now apply schema_columns_distinct.
    + cbn. tauto.
    + discriminate.
Qed.

Lemma status_is_free_text_witness :
  (let R := new_row (Scenario.at_ 12 12) tickets Scenario.ticket_of_ada in
   let NEW := set "status" (text "refunded") R in
   insert (Scenario.at_ 12 12) tickets
          (("status", text "refunded") :: Scenario.ticket_of_ada)
          Scenario.box_office
   = (put "tickets" (Scenario.box_office "tickets" ++ [NEW])
          Scenario.box_office, Done [NEW])
   /\ get "status" NEW = text "refunded")
  /\ (let R := new_row (Scenario.at_ 12 12) transactions
                       Scenario.payment_of_ada in
      let NEW := set "status" (text "on-hold") R in
      insert (Scenario.at_ 12 12) transactions
             (("status", text "on-hold") :: Scenario.payment_of_ada)
             Scenario.box_office
      = (put "transactions" (Scenario.box_office "transactions" ++ [NEW])
             Scenario.box_office, Done [NEW])
      /\ get "status" NEW = text "on-hold").
Proof.
  split.
  - apply (status_is_free_text tickets (Scenario.at_ 12 12) "refunded"
             Scenario.ticket_of_ada Scenario.box_office).
    + now left.
    + reflexivity.
    + reflexivity.
    + intros c Hc Hn Hne. each_column Hc; cbn in *; congruence.
    + reflexivity.
    + intros fk parent Hin. cbn in Hin.
      repeat (destruct Hin as [Hin|Hin];
              [try discriminate; injection Hin as <- <-; reflexivity|]).
      contradiction.
  - apply (status_is_free_text transactions (Scenario.at_ 12 12) "on-hold"
             Scenario.payment_of_ada Scenario.box_office).
    + now right.
    + reflexivity.
    + reflexivity.
    + intros c Hc Hn Hne. each_column Hc; cbn in *; congruence.
    + reflexivity.
    + intros fk parent Hin. cbn in Hin.
      repeat (destruct Hin as [Hin|Hin];
              [try discriminate; injection Hin as <- <-; reflexivity|]).
      contradiction.
Defined.

End Status.

Section Defaults.

Local Open Scope string_scope.
Local Open Scope list_scope.

(** C8: an INSERT INTO transactions that does not name currency succeeds
    and stores 'USD' there, provided the statement is well formed, gives
    the other NOT NULL columns a value, collides with no id and its
    ticket_id is the id of a ticket. *)
Theorem transactions_currency_defaults_to_USD (e : env) (st : statement)
        (d : db) :
  let NEW := new_row e transactions st in
  assoc "currency" st = None ->
  check_statement transactions st = None ->
  (forall c, In c (tbl_columns transactions) -> is_not_null c = true ->
             col_name c <> "currency" -> get (col_name c) NEW <> NULL) ->
  present "id" (get "id" NEW) (d "transactions") = false ->
  present "id" (get "ticket_id" NEW) (d "tickets") = true ->
  insert e transactions st d
  = (put "transactions" (d "transactions" ++ [NEW]) d, Done [NEW])
  /\ get "currency" NEW = text "USD".
Proof.
  intros NEW Hcur Hst Hnn Hid Hfk.
  assert (Hin : In transactions schema) by (cbn; tauto).
  assert (Husd : get "currency" NEW = text "USD").
  { pose proof (get_new_row e transactions st
                  (col "currency" TEXT
                       [NOT_NULL; DEFAULT (literal (text "USD"))])) as Hg.
    cbn [col_name] in Hg. unfold NEW. rewrite Hg.
    - unfold supplied. cbn [col_name]. now rewrite Hcur.
    - now apply schema_columns_distinct.
    - cbn. tauto. }
  split; [|exact Husd].
  destruct (key_checks_pass transactions NEW d Hin) as [Hu Hr];
    try discriminate; trivial.
  { intros fk parent Hk. cbn in Hk.
    repeat (destruct Hk as [Hk|Hk]; [try discriminate|]);
      [|contradiction].
    now injection Hk as <- <-. }
  apply insert_done; trivial.
  apply check_not_null_none. intros c Hc Hn.
  destruct (string_dec (col_name c) "currency") as [->|Hne].
  - fold NEW. rewrite Husd. discriminate.
  - now apply Hnn.
Qed.

Lemma transactions_currency_defaults_to_USD_witness :
  let st := ("status", text "pending") :: Scenario.payment_of_ada in
  let NEW := new_row (Scenario.at_ 12 12) transactions st in
  insert (Scenario.at_ 12 12) transactions st Scenario.box_office
  = (put "transactions" (Scenario.box_office "transactions" ++ [NEW])
         Scenario.box_office, Done [NEW])
  /\ get "currency" NEW = text "USD".
Proof.
  apply (transactions_currency_defaults_to_USD (Scenario.at_ 12 12)
           (("status", text "pending") :: Scenario.payment_of_ada)
           Scenario.box_office).
  - reflexivity.
  - reflexivity.
  - intros c Hc Hn Hne. each_column Hc; cbn in *; congruence.
  - reflexivity.
  - reflexivity.
Defined.

End Defaults.

Section Quantities.

Local Open Scope string_scope.
Local Open Scope Z_scope.
Local Open Scope list_scope.

(** INSERT INTO ticket_tiers (event_id, name, price, total_quantity,
    available_quantity) succeeds for every pair of quantities that fit the
    INTEGER type: no check relates the two or looks at their sign. *)
Lemma ticket_tier_quantities_unchecked (e : env) (d : db) (ev : N)
      (name : string) (price total available : Z) :
  present "id" (uuid ev) (d "events") = true ->
  present "id" (uuid (generated_uuid e)) (d "ticket_tiers") = false ->
  Z.abs price < 10 ^ 10 ->
  - 2 ^ 31 <= total < 2 ^ 31 ->
  - 2 ^ 31 <= available < 2 ^ 31 ->
  let NEW := [("id", uuid (generated_uuid e)); ("event_id", uuid ev);
              ("name", text name); ("description", NULL);
              ("price", decimal price); ("total_quantity", integer total);
              ("available_quantity", integer available);
              ("created_at", timestamptz (current_time e));
              ("updated_at", timestamptz (current_time e))] in
  insert e ticket_tiers
         [("event_id", uuid ev); ("name", text name); ("price", decimal price);
          ("total_quantity", integer total);
          ("available_quantity", integer available)] d
  = (put "ticket_tiers" (d "ticket_tiers" ++ [NEW]) d, Done [NEW]).
Proof.
  intros Hev Hid Hp Ht Ha NEW.
  assert (Hty : has_type (DECIMAL 10 2) (decimal price) = true
                /\ has_type INTEGER (integer total) = true
                /\ has_type INTEGER (integer available) = true).
  { unfold has_type. repeat split.
    - apply Z.ltb_lt. exact Hp.
    - apply andb_true_iff. split; [apply Z.leb_le | apply Z.ltb_lt]; lia.
    - apply andb_true_iff. split; [apply Z.leb_le | apply Z.ltb_lt]; lia. }
  destruct Hty as (Hp' & Ht' & Ha').
  apply insert_done.
  - cbn [check_statement]. cbn [find_column find tbl_columns ticket_tiers
                                col_name col_type String.eqb Ascii.eqb
                                Bool.eqb assoc].
    rewrite Hp', Ht', Ha'. reflexivity.
  - reflexivity.
  - unfold check_unique. cbn -[present].
    change (get "id" _) with (uuid (generated_uuid e)).
    now rewrite Hid.
  - apply check_references_none. intros c p pc a Hc Hk.
    each_column Hc; cbn in Hk;
      repeat (destruct Hk as [Hk|Hk]; [try discriminate|]);
      try contradiction.
    injection Hk as <- <- <-. exact Hev.
Qed.

(** C4: on the sample database, a tier with 10 tickets in total and 11
    available is inserted, and so is a tier with -1 available. *)
Theorem ticket_tier_quantities_not_enforced :
  (exists d' r,
      insert (Scenario.at_ 12 12) ticket_tiers (Scenario.vip_tier 10 11)
             Scenario.box_office = (d', Done [r])
      /\ In r (d' "ticket_tiers")
      /\ get "total_quantity" r = integer 10
      /\ get "available_quantity" r = integer 11
      /\ 11 > 10)
  /\ (exists d' r,
         insert (Scenario.at_ 12 12) ticket_tiers (Scenario.vip_tier 10 (-1))
                Scenario.box_office = (d', Done [r])
         /\ In r (d' "ticket_tiers")
         /\ get "available_quantity" r = integer (-1)
         /\ -1 < 0).
Proof.
  split.
  - eexists. eexists. split.
    + apply (ticket_tier_quantities_unchecked (Scenario.at_ 12 12)
               Scenario.box_office 4 "VIP" 5000 10 11);
        [reflexivity | reflexivity | reflexivity | lia | lia].
    + rewrite put_same. split; [apply in_or_app; right; now left|].
      repeat split; lia.
  - eexists. eexists. split.
    + apply (ticket_tier_quantities_unchecked (Scenario.at_ 12 12)
               Scenario.box_office 4 "VIP" 5000 10 (-1));
        [reflexivity | reflexivity | reflexivity | lia | lia].
    + rewrite put_same. split; [apply in_or_app; right; now left|].
      repeat split; lia.
Qed.

End Quantities.

Section Orphans.

Local Open Scope string_scope.
Local Open Scope list_scope.

Lemma orphan_insert_fails_witness :
  let st := [("user_id", uuid 1); ("ticket_tier_id", uuid 99);
             ("status", text "active")] in
  (exists err,
      insert (Scenario.at_ 12 12) tickets st Scenario.box_office
      = (Scenario.box_office, Failed err))
  /\ (exists c',
         In c' (column_names tickets)
         /\ insert (Scenario.at_ 12 12) tickets st Scenario.box_office
            = (Scenario.box_office,
               Failed (foreign_key_violation "tickets" c'))).
Proof.
  intros st.
  destruct (orphan_insert_fails tickets
              (col "ticket_tier_id" UUID
                   [NOT_NULL; REFERENCES "ticket_tiers" "id" CASCADE])
              "ticket_tiers" "id" CASCADE (Scenario.at_ 12 12) st
              Scenario.box_office) as [H1 H2].
  - cbn. tauto.
  - cbn. tauto.
  - cbn. tauto.
  - reflexivity.
  - split; [exact H1 | apply H2; reflexivity].
Defined.

(** The five foreign keys at work on the sample database: each statement
    is complete but for a parent that does not exist. *)
Example orphans_are_rejected :
  let run t st := snd (insert (Scenario.at_ 12 12) t st Scenario.box_office) in
  run events [("organizer_id", uuid 99); ("title", text "Gala");
              ("location", text "Porto"); ("start_time", timestamptz 70)]
  = Failed (foreign_key_violation "events" "organizer_id")
  /\ run ticket_tiers [("event_id", uuid 99); ("name", text "VIP");
                       ("price", decimal 5000); ("total_quantity", integer 5);
                       ("available_quantity", integer 5)]
     = Failed (foreign_key_violation "ticket_tiers" "event_id")
  /\ run tickets [("user_id", uuid 99); ("ticket_tier_id", uuid 6);
                  ("status", text "active")]
     = Failed (foreign_key_violation "tickets" "user_id")
  /\ run tickets [("user_id", uuid 1); ("ticket_tier_id", uuid 99);
                  ("status", text "active")]
     = Failed (foreign_key_violation "tickets" "ticket_tier_id")
  /\ run transactions [("ticket_id", uuid 99); ("amount", decimal 1000);
                       ("status", text "pending")]
     = Failed (foreign_key_violation "transactions" "ticket_id").
Proof. vm_compute. repeat split. Qed.

(** Deleting organizer 2 from the sample database leaves the other
    organizer and what hangs under it, and the user. *)
Example delete_west :
  match delete_from 5 organizers (equals "id" (uuid 2)) Scenario.box_office with
  | Some (d', Done gone) =>
      map (fun t => map (get "id") (d' (tbl_name t))) schema
      = [[uuid 1]; [uuid 3]; [uuid 5]; [uuid 7]; [uuid 9]; [uuid 11]]
      /\ map (get "id") gone = [uuid 2]
  | _ => False
  end.
Proof. vm_compute. split; reflexivity. Qed.

End Orphans.

(** * Properties of the organizer component *)

Section Organizers.

Local Open Scope string_scope.
Local Open Scope list_scope.

(** The cards of the rendered tree are the views of [cardsData], one per
    entry and in its order. *)
Lemma cards_of_component :
  Web.cards (Web.OrganizerComponent tt) = map Web.card_view Web.cardsData.
Proof. reflexivity. Qed.

Lemma card_id_of_view (card : Web.InfoCard) :
  Web.card_id (Web.card_view card) = Web.id card.
Proof. reflexivity. Qed.

Lemma card_description_of_view (card : Web.InfoCard) :
  Web.card_description (Web.card_view card) = Web.description card.
Proof.
  unfold Web.card_description.
  cbn [Web.card_view Web.descendants flat_map String.eqb Ascii.eqb Bool.eqb
       app map Web.text_content String.concat Web.Button].
  reflexivity.
Qed.

(** C5: the component renders exactly four cards, with the identifiers
    stellar-west-africa, stellar-east-african-community, stellar-india and
    stellar-portugal in that order. *)
Theorem organizer_cards_in_order :
  map Web.card_id (Web.cards (Web.OrganizerComponent tt))
  = ["stellar-west-africa"; "stellar-east-african-community";
     "stellar-india"; "stellar-portugal"]
  /\ List.length (Web.cards (Web.OrganizerComponent tt)) = 4%nat.
Proof. split; vm_compute; reflexivity. Qed.

(** C10: the rendered descriptions of stellar-india and stellar-portugal
    are the description of stellar-west-africa, which says "in West
    Africa"; the description of stellar-east-african-community is the only
    one that differs. *)
Theorem india_and_portugal_repeat_west_africa :
  let west :=
    "Building and empowering the Stellar ecosystem in West Africa through education, developer support, and real-world blockchain adoption." in
  let east :=
    "Building and empowering the Stellar ecosystem in East Africa through education, developer support, and real-world blockchain adoption." in
  map (fun c => (Web.card_id c, Web.card_description c))
      (Web.cards (Web.OrganizerComponent tt))
  = [("stellar-west-africa", west);
     ("stellar-east-african-community", east);
     ("stellar-india", west);
     ("stellar-portugal", west)]
  /\ west <> east
  /\ String.index 0 "in West Africa" west <> None
  /\ String.index 0 "in West Africa" east = None.
Proof.
  cbv zeta. split; [vm_compute; reflexivity|].
  split; [intros H; apply (f_equal (String.index 0 "West")) in H;
          vm_compute in H; discriminate|].
  split; [vm_compute; discriminate | vm_compute; reflexivity].
Qed.

End Organizers.

(** * Rows keep the columns of their table *)

Section Shape.

Local Open Scope string_scope.
Local Open Scope list_scope.

Lemma shaped_iff (d : db) :
  shaped d = true <->
  forall t r, In t schema -> In r (d (tbl_name t)) ->
              map fst r = column_names t.
Proof.
  split.
  - intros Hs t r Ht Hr. exact (shaped_row d t r Hs Ht Hr).
  - intros H. unfold shaped. apply forallb_forall. intros t Ht.
    apply forallb_forall. intros r Hr.
    destruct (list_eq_dec string_dec (map fst r) (column_names t));
      [reflexivity|]. now elim n; apply H.
Qed.

Lemma shaped_empty : shaped empty = true.
Proof. reflexivity. Qed.

Lemma table_by_name (t t' : table) :
  In t schema -> In t' schema -> tbl_name t' = tbl_name t -> t' = t.
Proof.
  intros Ht Ht' Hn. each_table Ht; each_table Ht';
    first [reflexivity | discriminate].
Qed.

(** Replacing the rows of one table by rows of the right shape. *)
Lemma shaped_put (d : db) (t : table) (rows : list row) :
  In t schema -> shaped d = true ->
  (forall r, In r rows -> map fst r = column_names t) ->
  shaped (put (tbl_name t) rows d) = true.
Proof.
  intros Ht Hs Hrows. apply shaped_iff. intros t' r Ht' Hr.
  unfold put in Hr.
  destruct (String.eqb_spec (tbl_name t') (tbl_name t)) as [Hn|_].
  - rewrite (table_by_name t t' Ht Ht' Hn). now apply Hrows.
  - exact (shaped_row d t' r Hs Ht' Hr).
Qed.

Lemma insert_shaped (e : env) (t : table) (st : statement) (d : db) :
  In t schema -> shaped d = true -> shaped (fst (insert e t st d)) = true.
Proof.
  intros Ht Hs. unfold insert. rewrite fire_before_insert.
  match goal with |- context [match ?c with Some _ => _ | None => _ end] =>
    destruct c end; [exact Hs|].
  cbn [fst]. apply shaped_put; trivial. intros r Hr.
  apply in_app_or in Hr. destruct Hr as [Hr|[<-|[]]].
  - exact (shaped_row d t r Hs Ht Hr).
  - apply keys_new_row.
Qed.

Lemma update_shaped (e : env) (t : table) (k : value) (st : statement)
      (d : db) :
  In t schema -> shaped d = true -> shaped (fst (update e t k st d)) = true.
Proof.
  intros Ht Hs. unfold update.
  destruct (check_statement t st); [exact Hs|].
  destruct (locate (primary_key t) k (d (tbl_name t))) as [[[b OLD] a]|] eqn:Hl;
    [|exact Hs].
  match goal with |- context [match ?c with Some _ => _ | None => _ end] =>
    destruct c end; [exact Hs|].
  cbn [fst]. apply locate_some in Hl. destruct Hl as [Hrows _].
  assert (Hold : forall r, In r (b ++ OLD :: a) -> map fst r = column_names t).
  { intros r Hr. apply (shaped_row d t r Hs Ht). now rewrite Hrows. }
  apply shaped_put; trivial. intros r Hr.
  apply in_app_or in Hr. destruct Hr as [Hr|[<-|Hr]].
  - apply Hold. apply in_or_app. now left.
  - rewrite fire_before_update by assumption.
    unfold update_updated_at_column. rewrite keys_set, keys_assign.
    apply Hold. apply in_or_app. right. now left.
  - apply Hold. apply in_or_app. right. now right.
Qed.

(** A cascade only removes rows. *)
Lemma cascade_removes (fuel : nat) :
  forall (t : string) (gone : row -> bool) (d d' : db),
    cascade fuel t gone d = Some (inr d') ->
    forall (name : string) (r : row), In r (d' name) -> In r (d name).
Proof.
  induction fuel as [|fuel IH]; [discriminate|].
  intros t gone d d'. cbn [cascade].
  set (victims := filter gone (d t)).
  set (d1 := put t (filter (fun r => negb (gone r)) (d t)) d).
  assert (H1 : forall name r, In r (d1 name) -> In r (d name)).
  { intros name r. unfold d1, put.
    destruct (String.eqb_spec name t) as [->|_]; [|tauto].
    intros Hr. apply filter_In in Hr. tauto. }
  revert H1. generalize d1. clear d1.
  induction (referencing t) as [|f fs IHf]; cbn [fold_left].
  - intros d1 H1 [= <-]. exact H1.
  - intros d1 H1. destruct (on_delete f).
    + destruct (existsb (orphaned f victims) (d1 (child f))).
      * intros Hf. exfalso. clear - Hf.
        induction fs as [|g gs IHg]; cbn in Hf; [discriminate | auto].
      * apply IHf. exact H1.
    + destruct (cascade fuel (child f) (orphaned f victims) d1)
        as [[err|d2]|] eqn:Hc.
      * intros Hf. exfalso. clear - Hf.
        induction fs as [|g gs IHg]; cbn in Hf; [discriminate | auto].
      * apply IHf. intros name r Hr. apply H1.
        exact (IH _ _ _ _ Hc name r Hr).
      * intros Hf. exfalso. clear - Hf.
        induction fs as [|g gs IHg]; cbn in Hf; [discriminate | auto].
Qed.

Lemma delete_shaped (fuel : nat) (t : table) (where_ : row -> bool)
      (d d' : db) (o : outcome) :
  shaped d = true -> delete_from fuel t where_ d = Some (d', o) ->
  shaped d' = true.
Proof.
  intros Hs. unfold delete_from.
  destruct (cascade fuel (tbl_name t) where_ d) as [[err|d2]|] eqn:Hc;
    [now intros [= <- _] | | discriminate].
  intros [= <- _]. apply shaped_iff. intros t' r Ht' Hr.
  apply (shaped_row d t' r Hs Ht').
  exact (cascade_removes fuel _ _ _ _ Hc _ r Hr).
Qed.

(** The sample databases are built by INSERT from the empty one. *)
Lemma samples_shaped :
  shaped Scenario.db_ada = true /\ shaped Scenario.box_office = true.
Proof. split; reflexivity. Qed.

End Shape.

(** * Referential integrity across a cascade *)

Section Integrity.

Local Open Scope string_scope.
Local Open Scope list_scope.

(** A child row that survives the removal of the rows it could reference
    still has its parent among the survivors. *)
Lemma survivor_keeps_parent (fk : string) (gone : row -> bool)
      (parents children : list row) (r : row) :
  In r (without (references fk (filter gone parents)) children) ->
  present "id" (get fk r) parents = true ->
  present "id" (get fk r) (without gone parents) = true.
Proof.
  intros Hr Hp. apply filter_In in Hr. destruct Hr as [_ Hr].
  apply negb_true_iff in Hr.
  apply present_true in Hp. destruct Hp as (Hv & p & Hin & Hid).
  apply present_true. split; [exact Hv|]. exists p. split; [|exact Hid].
  apply filter_In. split; [exact Hin|]. apply negb_true_iff.
  destruct (gone p) eqn:Hg; [|reflexivity].
  assert (Href : references fk (filter gone parents) r = true).
  { unfold references. apply existsb_exists. exists p. split.
    - apply filter_In. auto.
    - apply matches_true. split; [exact Hv | now symmetry]. }
  congruence.
Qed.

(** Deleting from organizers leaves no dangling reference behind. *)
Lemma delete_from_organizers_keeps_integrity (d d' : db)
      (gone : row -> bool) (n : nat) (o : outcome) :
  integrity d ->
  delete_from (5 + n) organizers gone d = Some (d', o) ->
  integrity d'.
Proof.
  intros Hi. unfold delete_from.
  change (tbl_name organizers) with "organizers".
  rewrite cascade_from_organizers. cbv zeta. intros [= <- _].
  intros child fk parent pc r Hk Hr.
  pose proof (Hi child fk parent pc) as Hd.
  rewrite foreign_keys_of_schema in Hk. cbn in Hk.
  destruct Hk as [Hk|[Hk|[Hk|[Hk|[Hk|[]]]]]];
    injection Hk as <- <- <- <-; specialize (Hd r);
    cbn [put String.eqb Ascii.eqb Bool.eqb] in Hr |- *.
  - apply survivor_keeps_parent with (children := d "events");
      [exact Hr|]. apply Hd; [cbn; tauto|].
    apply filter_In in Hr. tauto.
  - apply survivor_keeps_parent with (children := d "ticket_tiers");
      [exact Hr|]. apply Hd; [cbn; tauto|].
    apply filter_In in Hr. tauto.
  - apply Hd; [cbn; tauto|]. apply filter_In in Hr. tauto.
  - apply survivor_keeps_parent with (children := d "tickets");
      [exact Hr|]. apply Hd; [cbn; tauto|].
    apply filter_In in Hr. tauto.
  - apply survivor_keeps_parent with (children := d "transactions");
      [exact Hr|]. apply Hd; [cbn; tauto|].
    apply filter_In in Hr. tauto.
Qed.

End Integrity.

(** * Primary keys stay unique *)

Section Keys.

Local Open Scope string_scope.
Local Open Scope list_scope.

Lemma NoDup_insert {A : Type} (x : A) (b a : list A) :
  NoDup (b ++ a) -> ~ In x (b ++ a) -> NoDup (b ++ x :: a).
Proof.
  induction b as [|y b IH]; cbn; intros Hnd Hx.
  - now constructor.
  - inversion Hnd as [|? ? Hy Hnd']; subst. constructor.
    + intros Hin. apply in_app_or in Hin. destruct Hin as [Hin|[->|Hin]].
      * apply Hy. apply in_or_app. now left.
      * apply Hx. now left.
      * apply Hy. apply in_or_app. now right.
    + apply IH; [exact Hnd'|]. intros Hin. apply Hx. now right.
Qed.

Lemma NoDup_map_filter {A B : Type} (f : A -> B) (keep : A -> bool)
      (l : list A) :
  NoDup (map f l) -> NoDup (map f (filter keep l)).
Proof.
  induction l as [|x l IH]; cbn; [auto|].
  intros Hnd. inversion Hnd as [|? ? Hx Hnd']; subst.
  destruct (keep x); cbn; [|now apply IH].
  constructor; [|now apply IH].
  intros Hin. apply Hx. apply in_map_iff in Hin.
  destruct Hin as (y & Hy & Hin). apply filter_In in Hin.
  apply in_map_iff. exists y. tauto.
Qed.

Lemma absent_key (c : string) (v : value) (rows : list row) :
  v <> NULL -> present c v rows = false -> ~ In v (map (get c) rows).
Proof.
  intros Hv Hp Hin. apply in_map_iff in Hin. destruct Hin as (r & Hr & Hin).
  assert (present c v rows = true) by (apply present_true; eauto).
  congruence.
Qed.

(** In each table the column id is the primary key. *)
Lemma id_column (t : table) :
  In t schema ->
  primary_key t = "id"
  /\ exists c, In c (tbl_columns t) /\ col_name c = "id"
               /\ is_unique c = true /\ is_not_null c = true.
Proof.
  intros Ht. split; [now apply primary_key_id|].
  each_table Ht; eexists; (split; [cbn; left; reflexivity|]);
    repeat split.
Qed.

(** What the checks of a row establish about its key. *)
Lemma checked_key (t : table) (r : row) (others : list row) :
  In t schema ->
  check_not_null t r = None -> check_unique t r others = None ->
  get (primary_key t) r <> NULL
  /\ ~ In (get (primary_key t) r) (map (get (primary_key t)) others).
Proof.
  intros Ht Hnn Hu.
  destruct (id_column t Ht) as (-> & c & Hc & Hn & Huc & Hnc).
  pose proof (proj1 (check_not_null_none t r) Hnn c Hc Hnc) as Hv.
  pose proof (proj1 (check_unique_none t r others) Hu c Hc Huc) as Hp.
  rewrite Hn in Hv, Hp. split; [exact Hv|]. now apply absent_key.
Qed.

Lemma keys_unique_empty : keys_unique empty.
Proof. intros t _. cbn. split; [constructor | contradiction]. Qed.

Lemma keys_unique_put (d : db) (t : table) (rows : list row) :
  In t schema -> keys_unique d ->
  NoDup (map (get (primary_key t)) rows) ->
  (forall r, In r rows -> get (primary_key t) r <> NULL) ->
  keys_unique (put (tbl_name t) rows d).
Proof.
  intros Ht Hk Hnd Hnn t' Ht'. unfold put.
  destruct (String.eqb_spec (tbl_name t') (tbl_name t)) as [Hn|_].
  - rewrite (table_by_name t t' Ht Ht' Hn). auto.
  - exact (Hk t' Ht').
Qed.

Lemma insert_keys_unique (e : env) (t : table) (st : statement) (d : db) :
  In t schema -> keys_unique d -> keys_unique (fst (insert e t st d)).
Proof.
  intros Ht Hk. unfold insert. rewrite fire_before_insert.
  match goal with |- context [match ?c with Some _ => _ | None => _ end] =>
    destruct c eqn:Hchk end; [exact Hk|].
  apply orelse_none in Hchk. destruct Hchk as [Hchk _].
  apply orelse_none in Hchk. destruct Hchk as [Hchk Hu].
  apply orelse_none in Hchk. destruct Hchk as [_ Hnn].
  destruct (checked_key t _ _ Ht Hnn Hu) as [Hv Hfresh].
  destruct (Hk t Ht) as [Hnd Hold].
  cbn [fst]. apply keys_unique_put; trivial.
  - rewrite map_app. cbn [map].
    apply NoDup_insert; rewrite app_nil_r; assumption.
  - intros r Hr. apply in_app_or in Hr. destruct Hr as [Hr|[<-|[]]]; auto.
Qed.

Lemma update_keys_unique (e : env) (t : table) (k : value) (st : statement)
      (d : db) :
  In t schema -> keys_unique d -> keys_unique (fst (update e t k st d)).
Proof.
  intros Ht Hk. unfold update.
  destruct (check_statement t st); [exact Hk|].
  destruct (locate (primary_key t) k (d (tbl_name t))) as [[[b OLD] a]|] eqn:Hl;
    [|exact Hk].
  match goal with |- context [match ?c with Some _ => _ | None => _ end] =>
    destruct c eqn:Hchk end; [exact Hk|].
  apply orelse_none in Hchk. destruct Hchk as [Hchk _].
  apply orelse_none in Hchk. destruct Hchk as [Hchk _].
  apply orelse_none in Hchk. destruct Hchk as [Hnn Hu].
  destruct (checked_key t _ _ Ht Hnn Hu) as [Hv Hfresh].
  destruct (Hk t Ht) as [Hnd Hold].
  apply locate_some in Hl. destruct Hl as [Hrows _]. rewrite Hrows in *.
  cbn [fst]. apply keys_unique_put; trivial.
  - rewrite map_app in *. cbn [map] in *. apply NoDup_insert.
    + exact (NoDup_remove_1 _ _ _ Hnd).
    + exact Hfresh.
  - intros r Hr. apply in_app_or in Hr. destruct Hr as [Hr|[<-|Hr]].
    + apply Hold. apply in_or_app. now left.
    + exact Hv.
    + apply Hold. apply in_or_app. right. now right.
Qed.

(** A cascade leaves in each table a selection of its rows, in their
    order. *)
Lemma cascade_filters (fuel : nat) :
  forall (t : string) (gone : row -> bool) (d d' : db),
    cascade fuel t gone d = Some (inr d') ->
    forall name, exists keep, d' name = filter keep (d name).
Proof.
  induction fuel as [|fuel IH]; [discriminate|].
  intros t gone d d'. cbn [cascade].
  set (victims := filter gone (d t)).
  set (d1 := put t (filter (fun r => negb (gone r)) (d t)) d).
  assert (H1 : forall name, exists keep, d1 name = filter keep (d name)).
  { intros name. unfold d1, put.
    destruct (String.eqb_spec name t) as [->|_].
    - eexists. reflexivity.
    - exists (fun _ => true). clear. induction (d name); cbn; congruence. }
  revert H1. generalize d1. clear d1.
  assert (Hstuck : forall fs x,
             fold_left (fun (acc : option (error + db)) f =>
               match acc with
               | Some (inr d2) =>
                   match on_delete f with
                   | NO_ACTION =>
                       if existsb (orphaned f victims) (d2 (child f))
                       then Some (inl (foreign_key_violation
                                         (child f) (child_column f)))
                       else Some (inr d2)
                   | CASCADE =>
                       cascade fuel (child f) (orphaned f victims) d2
                   end
               | _ => acc
               end) fs x = Some (inr d') ->
             exists d2, x = Some (inr d2)).
  { induction fs as [|g gs IHg]; cbn [fold_left]; intros x Hx.
    - eauto.
    - apply IHg in Hx. destruct Hx as [d2 Hx].
      destruct x as [[err|d3]|]; [discriminate | eauto | discriminate]. }
  induction (referencing t) as [|f fs IHf]; cbn [fold_left].
  - intros d1 H1 [= <-]. exact H1.
  - intros d1 H1 Hf. pose proof (Hstuck _ _ Hf) as [d2 Hd2].
    rewrite Hd2 in Hf. apply (IHf d2); [|exact Hf].
    destruct (on_delete f).
    + destruct (existsb (orphaned f victims) (d1 (child f)));
        [discriminate|]. injection Hd2 as <-. exact H1.
    + intros name. destruct (IH _ _ _ _ Hd2 name) as [k2 Hk2].
      destruct (H1 name) as [k1 Hk1].
      exists (fun r => k1 r && k2 r). rewrite Hk2, Hk1.
      clear. induction (d name) as [|r l IHl]; cbn; [reflexivity|].
      destruct (k1 r); cbn; [|exact IHl].
      destruct (k2 r); cbn; now rewrite IHl.
Qed.

Lemma delete_keys_unique (fuel : nat) (t : table) (where_ : row -> bool)
      (d d' : db) (o : outcome) :
  keys_unique d -> delete_from fuel t where_ d = Some (d', o) ->
  keys_unique d'.
Proof.
  intros Hk. unfold delete_from.
  destruct (cascade fuel (tbl_name t) where_ d) as [[err|d2]|] eqn:Hc;
    [now intros [= <- _] | | discriminate].
  intros [= <- _] t' Ht'. destruct (Hk t' Ht') as [Hnd Hnn].
  destruct (cascade_filters fuel _ _ _ _ Hc (tbl_name t')) as [keep ->].
  split.
  - now apply NoDup_map_filter.
  - intros r Hr. apply filter_In in Hr. apply Hnn. tauto.
Qed.

(** With unique keys, the row an UPDATE finds is the only one with that
    key. *)
Lemma target_is_the_row (t : table) (k : value) (d : db) (OLD r : row) :
  In t schema -> keys_unique d ->
  target t k d = Some OLD ->
  In r (d (tbl_name t)) -> get (primary_key t) r = k -> r = OLD.
Proof.
  intros Ht Hk Htg Hr Hkey. destruct (Hk t Ht) as [Hnd _].
  unfold target in Htg.
  destruct (locate (primary_key t) k (d (tbl_name t))) as [[[b x] a]|] eqn:Hl;
    [|discriminate].
  injection Htg as ->. apply locate_some in Hl. destruct Hl as [Hrows Hm].
  apply matches_true in Hm. destruct Hm as [_ Hm].
  rewrite Hrows in Hr, Hnd. rewrite map_app in Hnd. cbn [map] in Hnd.
  apply in_app_or in Hr. destruct Hr as [Hr|[Hr|Hr]]; [|now symmetry|].
  - exfalso. apply (NoDup_remove_2 _ _ _ Hnd). apply in_or_app. left.
    rewrite <- Hm, <- Hkey. now apply in_map.
  - exfalso. apply (NoDup_remove_2 _ _ _ Hnd). apply in_or_app. right.
    rewrite <- Hm, <- Hkey. now apply in_map.
Qed.

End Keys.

(** * DELETE on the other tables *)

Section Cascades.

Local Open Scope string_scope.
Local Open Scope list_scope.

(** The cascades that start at the other five tables, with the fuel their
    depth needs. *)
Lemma cascade_from_users (d : db) (gone : row -> bool) (n : nat) :
  let U := filter gone (d "users") in
  let K := filter (references "user_id" U) (d "tickets") in
  cascade (3 + n) "users" gone d
  = Some (inr
      (put "transactions"
           (without (references "ticket_id" K) (d "transactions"))
      (put "tickets" (without (references "user_id" U) (d "tickets"))
      (put "users" (without gone (d "users")) d)))).
Proof. reflexivity. Qed.

Lemma cascade_from_events (d : db) (gone : row -> bool) (n : nat) :
  let E := filter gone (d "events") in
  let T := filter (references "event_id" E) (d "ticket_tiers") in
  let K := filter (references "ticket_tier_id" T) (d "tickets") in
  cascade (4 + n) "events" gone d
  = Some (inr
      (put "transactions"
           (without (references "ticket_id" K) (d "transactions"))
      (put "tickets"
           (without (references "ticket_tier_id" T) (d "tickets"))
      (put "ticket_tiers"
           (without (references "event_id" E) (d "ticket_tiers"))
      (put "events" (without gone (d "events")) d))))).
Proof. reflexivity. Qed.

Lemma cascade_from_ticket_tiers (d : db) (gone : row -> bool) (n : nat) :
  let T := filter gone (d "ticket_tiers") in
  let K := filter (references "ticket_tier_id" T) (d "tickets") in
  cascade (3 + n) "ticket_tiers" gone d
  = Some (inr
      (put "transactions"
           (without (references "ticket_id" K) (d "transactions"))
      (put "tickets"
           (without (references "ticket_tier_id" T) (d "tickets"))
      (put "ticket_tiers" (without gone (d "ticket_tiers")) d)))).
Proof. reflexivity. Qed.

Lemma cascade_from_tickets (d : db) (gone : row -> bool) (n : nat) :
  let K := filter gone (d "tickets") in
  cascade (2 + n) "tickets" gone d
  = Some (inr
      (put "transactions"
           (without (references "ticket_id" K) (d "transactions"))
      (put "tickets" (without gone (d "tickets")) d))).
Proof. reflexivity. Qed.

Lemma cascade_from_transactions (d : db) (gone : row -> bool) (n : nat) :
  cascade (1 + n) "transactions" gone d
  = Some (inr (put "transactions" (without gone (d "transactions")) d)).
Proof. reflexivity. Qed.

(** Five levels of fuel are enough for a DELETE on any table. *)
Lemma cascade_returns (t : table) (gone : row -> bool) (d : db) (n : nat) :
  In t schema ->
  exists d', cascade (5 + n) (tbl_name t) gone d = Some (inr d')
             /\ d' (tbl_name t) = without gone (d (tbl_name t)).
Proof.
  intros Ht. each_table Ht.
  - change (5 + n)%nat with (3 + (2 + n))%nat.
    cbn [tbl_name users]. rewrite cascade_from_users. eauto.
  - cbn [tbl_name organizers]. rewrite cascade_from_organizers. eauto.
  - change (5 + n)%nat with (4 + (1 + n))%nat.
    cbn [tbl_name events]. rewrite cascade_from_events. eauto.
  - change (5 + n)%nat with (3 + (2 + n))%nat.
    cbn [tbl_name ticket_tiers]. rewrite cascade_from_ticket_tiers. eauto.
  - change (5 + n)%nat with (2 + (3 + n))%nat.
    cbn [tbl_name tickets]. rewrite cascade_from_tickets. eauto.
  - change (5 + n)%nat with (1 + (4 + n))%nat.
    cbn [tbl_name transactions]. rewrite cascade_from_transactions. eauto.
Qed.

(** X1: deleting a user deletes exactly that user, the tickets whose
    user_id is its id and the transactions whose ticket_id references one
    of those tickets.  organizers, events and ticket_tiers keep every row
    as it was. *)
Theorem delete_user_cascades (d : db) (u : value) (n : nat) :
  present "id" u (d "users") = true ->
  let U := filter (equals "id" u) (d "users") in
  let K := filter (equals "user_id" u) (d "tickets") in
  exists d',
    delete_from (3 + n) users (equals "id" u) d = Some (d', Done U)
    /\ d' "users" = without (equals "id" u) (d "users")
    /\ d' "tickets" = without (equals "user_id" u) (d "tickets")
    /\ d' "transactions" = without (references "ticket_id" K) (d "transactions")
    /\ forall t, ~ In t ["users"; "tickets"; "transactions"] -> d' t = d t.
Proof.
  intros Hp U K.
  assert (HK : filter (references "user_id" U) (d "tickets") = K).
  { apply filter_ext. intros r. now apply references_selected. }
  assert (HK' : without (references "user_id" U) (d "tickets")
                = without (equals "user_id" u) (d "tickets")).
  { apply filter_ext. intros r. f_equal. now apply references_selected. }
  unfold delete_from. change (tbl_name users) with "users".
  rewrite cascade_from_users. cbv zeta. fold U. rewrite HK, HK'.
  eexists. split; [reflexivity|].
  repeat (split; [reflexivity|]).
  intros t Ht. cbn in Ht.
  rewrite !put_other by (intros ->; apply Ht; tauto).
  reflexivity.
Qed.

Lemma delete_user_cascades_witness :
  let d := Scenario.box_office in
  let u := uuid 1 in
  let U := filter (equals "id" u) (d "users") in
  let K := filter (equals "user_id" u) (d "tickets") in
  exists d',
    delete_from 3 users (equals "id" u) d = Some (d', Done U)
    /\ d' "users" = without (equals "id" u) (d "users")
    /\ d' "tickets" = without (equals "user_id" u) (d "tickets")
    /\ d' "transactions" = without (references "ticket_id" K) (d "transactions")
    /\ forall t, ~ In t ["users"; "tickets"; "transactions"] -> d' t = d t.
Proof.
  apply (delete_user_cascades Scenario.box_office (uuid 1) 0).
  reflexivity.
Defined.

(** X2: deleting an event deletes exactly that event, the ticket tiers
    whose event_id is its id, the tickets of those tiers and the
    transactions of those tickets.  organizers and users keep every row. *)
Theorem delete_event_cascades (d : db) (ev : value) (n : nat) :
  present "id" ev (d "events") = true ->
  let E := filter (equals "id" ev) (d "events") in
  let T := filter (equals "event_id" ev) (d "ticket_tiers") in
  let K := filter (references "ticket_tier_id" T) (d "tickets") in
  exists d',
    delete_from (4 + n) events (equals "id" ev) d = Some (d', Done E)
    /\ d' "events" = without (equals "id" ev) (d "events")
    /\ d' "ticket_tiers" = without (equals "event_id" ev) (d "ticket_tiers")
    /\ d' "tickets" = without (references "ticket_tier_id" T) (d "tickets")
    /\ d' "transactions" = without (references "ticket_id" K) (d "transactions")
    /\ forall t,
         ~ In t ["events"; "ticket_tiers"; "tickets"; "transactions"] ->
         d' t = d t.
Proof.
  intros Hp E T K.
  assert (HT : filter (references "event_id" E) (d "ticket_tiers") = T).
  { apply filter_ext. intros r. now apply references_selected. }
  assert (HT' : without (references "event_id" E) (d "ticket_tiers")
                = without (equals "event_id" ev) (d "ticket_tiers")).
  { apply filter_ext. intros r. f_equal. now apply references_selected. }
  unfold delete_from. change (tbl_name events) with "events".
  rewrite cascade_from_events. cbv zeta. fold E. rewrite HT, HT'. fold K.
  eexists. split; [reflexivity|].
  repeat (split; [reflexivity|]).
  intros t Ht. cbn in Ht.
  rewrite !put_other by (intros ->; apply Ht; tauto).
  reflexivity.
Qed.

Lemma delete_event_cascades_witness :
  let d := Scenario.box_office in
  let ev := uuid 5 in
  let E := filter (equals "id" ev) (d "events") in
  let T := filter (equals "event_id" ev) (d "ticket_tiers") in
  let K := filter (references "ticket_tier_id" T) (d "tickets") in
  exists d',
    delete_from 4 events (equals "id" ev) d = Some (d', Done E)
    /\ d' "events" = without (equals "id" ev) (d "events")
    /\ d' "ticket_tiers" = without (equals "event_id" ev) (d "ticket_tiers")
    /\ d' "tickets" = without (references "ticket_tier_id" T) (d "tickets")
    /\ d' "transactions" = without (references "ticket_id" K) (d "transactions")
    /\ forall t,
         ~ In t ["events"; "ticket_tiers"; "tickets"; "transactions"] ->
         d' t = d t.
Proof.
  apply (delete_event_cascades Scenario.box_office (uuid 5) 0).
  reflexivity.
Defined.

End Cascades.

Section DeleteAnywhere.

Local Open Scope string_scope.
Local Open Scope list_scope.

(** X3: a DELETE on any of the six tables never fails: every foreign key
    is ON DELETE CASCADE, so no child row blocks it, and five levels of
    fuel are enough.  It reports the rows of the table that match, leaves
    the others of that table, and in every table what is left is a
    selection of the former rows in their order. *)
Theorem delete_always_succeeds (t : table) (where_ : row -> bool) (d : db)
        (n : nat) :
  In t schema ->
  exists d',
    delete_from (5 + n) t where_ d
    = Some (d', Done (filter where_ (d (tbl_name t))))
    /\ d' (tbl_name t) = without where_ (d (tbl_name t))
    /\ forall name, exists keep, d' name = filter keep (d name).
Proof.
  intros Ht. destruct (cascade_returns t where_ d n Ht) as (d' & Hc & Ht').
  exists d'. unfold delete_from. rewrite Hc. split; [reflexivity|].
  split; [exact Ht'|].
  exact (cascade_filters _ _ _ _ _ Hc).
Qed.

Lemma delete_always_succeeds_witness :
  exists d',
    delete_from 5 tickets (equals "id" (uuid 8)) Scenario.box_office
    = Some (d', Done (filter (equals "id" (uuid 8))
                             (Scenario.box_office "tickets")))
    /\ d' "tickets"
       = without (equals "id" (uuid 8)) (Scenario.box_office "tickets")
    /\ forall name, exists keep,
         d' name = filter keep (Scenario.box_office name).
Proof.
  apply (delete_always_succeeds tickets (equals "id" (uuid 8))
           Scenario.box_office 0).
  cbn. tauto.
Defined.

Lemma filter_nothing {A : Type} (p : A -> bool) (l : list A) :
  filter p l = [] -> filter (fun x => negb (p x)) l = l.
Proof.
  induction l as [|x l IH]; cbn; [reflexivity|].
  destruct (p x); [discriminate|]. cbn. intros H. now rewrite IH.
Qed.

Lemma references_nobody (fk : string) (rows : list row) :
  filter (references fk []) rows = []
  /\ without (references fk []) rows = rows.
Proof.
  unfold without, references.
  split; induction rows as [|r rows IH]; cbn in *;
    [reflexivity | exact IH | reflexivity | now rewrite IH].
Qed.

(** X5: a DELETE whose WHERE matches no row of the table, such as the
    deletion of an id that does not exist, reports no row and leaves every
    table as it was. *)
Theorem delete_of_nothing (t : table) (where_ : row -> bool) (d : db)
        (n : nat) :
  In t schema ->
  filter where_ (d (tbl_name t)) = [] ->
  exists d',
    delete_from (5 + n) t where_ d = Some (d', Done [])
    /\ forall name, d' name = d name.
Proof.
  intros Ht Hnone.
  assert (Hall : without where_ (d (tbl_name t)) = d (tbl_name t))
    by exact (filter_nothing _ _ Hnone).
  assert (Hput : forall fk rows, filter (references fk []) rows = []
                                 /\ without (references fk []) rows = rows)
    by apply references_nobody.
  unfold delete_from. rewrite Hnone.
  each_table Ht; cbn [tbl_name users organizers events ticket_tiers tickets
                      transactions] in *;
    [ change (5 + n)%nat with (3 + (2 + n))%nat; rewrite cascade_from_users
    | rewrite cascade_from_organizers
    | change (5 + n)%nat with (4 + (1 + n))%nat; rewrite cascade_from_events
    | change (5 + n)%nat with (3 + (2 + n))%nat;
      rewrite cascade_from_ticket_tiers
    | change (5 + n)%nat with (2 + (3 + n))%nat; rewrite cascade_from_tickets
    | change (5 + n)%nat with (1 + (4 + n))%nat;
      rewrite cascade_from_transactions ];
    cbv zeta;
    repeat first [ rewrite Hnone | rewrite Hall
                 | rewrite (proj1 (Hput _ _)) | rewrite (proj2 (Hput _ _)) ];
    (eexists; split; [reflexivity|]; intros name; unfold put;
     repeat match goal with
            | |- context [String.eqb name ?x] =>
                destruct (String.eqb_spec name x) as [->|_]; [reflexivity|]
            end;
     reflexivity).
Qed.

Lemma delete_of_nothing_witness :
  exists d',
    delete_from 5 users (equals "id" (uuid 99)) Scenario.box_office
    = Some (d', Done [])
    /\ forall name, d' name = Scenario.box_office name.
Proof.
  apply (delete_of_nothing users (equals "id" (uuid 99))
           Scenario.box_office 0).
  - cbn. tauto.
  - reflexivity.
Defined.

End DeleteAnywhere.

(** * The statements keep the database consistent *)

Section Consistency.

Local Open Scope string_scope.
Local Open Scope list_scope.

Lemma present_app (c : string) (v : value) (rows more : list row) :
  present c v rows = true -> present c v (rows ++ more) = true.
Proof.
  unfold present. rewrite existsb_app. intros ->. reflexivity.
Qed.

Lemma check_references_passed (t : table) (f : string -> bool) (r : row)
      (d : db) (c : column) (p pc : string) (a : action) :
  check_references t f r d = None ->
  In c (tbl_columns t) -> In (REFERENCES p pc a) (col_constraints c) ->
  f (col_name c) = true -> get (col_name c) r <> NULL ->
  present pc (get (col_name c) r) (d p) = true.
Proof.
  unfold check_references. intros H Hc Ha Hf Hv.
  pose proof (proj1 (first_error_none _ _) H c Hc) as Hin.
  cbn beta in Hin. rewrite Hf in Hin.
  assert (Hr : In (p, pc) (references_of c))
    by (apply in_references_of; eauto).
  pose proof (proj1 (first_error_none _ _) Hin (p, pc) Hr) as H0.
  cbn [fst snd] in H0. revert H0 Hv.
  destruct (get (col_name c) r); intros H0 Hv; [congruence|..];
    (destruct (present pc _ (d p)); [reflexivity | discriminate]).
Qed.

(** A listed foreign key is a REFERENCES clause of a column of its table,
    and it points at another table. *)
Lemma foreign_key_column (t : table) (fk parent pc : string) :
  In t schema -> In (tbl_name t, fk, parent, pc) foreign_keys ->
  parent <> tbl_name t
  /\ exists c a, In c (tbl_columns t) /\ col_name c = fk
                 /\ In (REFERENCES parent pc a) (col_constraints c).
Proof.
  intros Ht Hk. rewrite foreign_keys_of_schema in Hk.
  each_table Ht; cbn in Hk;
    repeat (destruct Hk as [Hk|Hk]; [try discriminate|]);
    try contradiction;
    injection Hk as <- <- <-; (split; [discriminate|]);
    match goal with
    | |- exists c a, In c (tbl_columns ?t) /\ col_name c = ?fk /\ _ =>
        let r := eval vm_compute in (find_column t fk) in
        match r with
        | Some ?x => exists x, CASCADE; repeat split; cbn; auto 12
        end
    end.
Qed.

Lemma foreign_key_referencing (t : table) (child_ fk pc : string) :
  In t schema -> In (child_, fk, tbl_name t, pc) foreign_keys ->
  child_ <> tbl_name t
  /\ exists a, In {| child := child_; child_column := fk;
                     parent_column := pc; on_delete := a |}
                  (referencing (tbl_name t)).
Proof.
  intros Ht Hk. rewrite foreign_keys_of_schema in Hk.
  each_table Ht; cbn in Hk;
    repeat (destruct Hk as [Hk|Hk]; [try discriminate|]);
    try contradiction;
    injection Hk as <- <- <-; (split; [discriminate|]);
    exists CASCADE; cbn; tauto.
Qed.

Lemma insert_keeps_integrity (e : env) (t : table) (st : statement)
      (d : db) :
  In t schema -> integrity d -> integrity (fst (insert e t st d)).
Proof.
  intros Ht Hi. unfold insert. rewrite fire_before_insert.
  set (NEW := new_row e t st).
  match goal with |- context [match ?c with Some _ => _ | None => _ end] =>
    destruct c eqn:Hchk end; [exact Hi|].
  apply orelse_none in Hchk. destruct Hchk as [Hchk Hr].
  apply orelse_none in Hchk. destruct Hchk as [Hchk _].
  apply orelse_none in Hchk. destruct Hchk as [_ Hnn].
  cbn [fst]. intros child_ fk parent pc r Hk Hin.
  assert (Hmono : forall v, present pc v (d parent) = true ->
            present pc v (put (tbl_name t) (d (tbl_name t) ++ [NEW]) d parent)
            = true).
  { intros v Hv. unfold put.
    destruct (String.eqb_spec parent (tbl_name t)) as [->|_]; [|exact Hv].
    now apply present_app. }
  apply Hmono. unfold put in Hin.
  destruct (String.eqb_spec child_ (tbl_name t)) as [->|_];
    [|exact (Hi _ _ _ _ r Hk Hin)].
  apply in_app_or in Hin. destruct Hin as [Hin|[<-|[]]];
    [exact (Hi _ _ _ _ r Hk Hin)|].
  destruct (foreign_key_column t fk parent pc Ht Hk)
    as (_ & c & a & Hc & <- & Ha).
  apply (check_references_passed t (fun _ => true) NEW d c parent pc a);
    trivial.
  apply (proj1 (check_not_null_none t NEW) Hnn c Hc).
  exact (foreign_keys_not_null t c parent pc a Ht Hc Ha).
Qed.

Lemma update_keeps_integrity (e : env) (t : table) (k : value)
      (st : statement) (d : db) :
  In t schema -> integrity d -> integrity (fst (update e t k st d)).
Proof.
  intros Ht Hi. unfold update.
  destruct (check_statement t st); [exact Hi|].
  destruct (locate (primary_key t) k (d (tbl_name t))) as [[[b OLD] a]|] eqn:Hl;
    [|exact Hi].
  set (NEW := fire BEFORE_UPDATE t e (assign st OLD)).
  match goal with |- context [match ?c with Some _ => _ | None => _ end] =>
    destruct c eqn:Hchk end; [exact Hi|].
  apply orelse_none in Hchk. destruct Hchk as [Hchk Hrd].
  apply orelse_none in Hchk. destruct Hchk as [Hchk Hr].
  apply orelse_none in Hchk. destruct Hchk as [Hnn _].
  apply locate_some in Hl. destruct Hl as [Hrows _].
  cbn [fst]. intros child_ fk parent pc r Hk Hin.
  unfold put in Hin |- *.
  destruct (String.eqb_spec child_ (tbl_name t)) as [->|Hct].
  - (* a row of the updated table *)
    destruct (foreign_key_column t fk parent pc Ht Hk)
      as (Hpt & c & ac & Hc & <- & Ha).
    destruct (String.eqb_spec parent (tbl_name t)) as [|_]; [contradiction|].
    assert (Hold : forall x, In x (b ++ OLD :: a) ->
              present pc (get (col_name c) x) (d parent) = true).
    { intros x Hx. apply (Hi _ _ _ _ x Hk). now rewrite Hrows. }
    apply in_app_or in Hin. destruct Hin as [Hin|[<-|Hin]].
    + apply Hold. apply in_or_app. now left.
    + destruct (changed OLD NEW (col_name c)) eqn:Hch.
      * apply (check_references_passed t (changed OLD NEW) NEW d c parent pc ac);
          trivial.
        apply (proj1 (check_not_null_none t NEW) Hnn c Hc).
        exact (foreign_keys_not_null t c parent pc ac Ht Hc Ha).
      * unfold changed in Hch. apply negb_false_iff in Hch.
        apply value_eqb_eq in Hch. rewrite <- Hch.
        apply Hold. apply in_or_app. right. now left.
    + apply Hold. apply in_or_app. right. now right.
  - (* a row of another table *)
    pose proof (Hi _ _ _ _ r Hk Hin) as Hp.
    destruct (String.eqb_spec parent (tbl_name t)) as [->|_]; [|exact Hp].
    destruct (foreign_key_referencing t child_ fk pc Ht Hk) as (_ & ac & Hf).
    apply present_true in Hp. destruct Hp as (Hv & p & Hpin & Hpv).
    rewrite Hrows in Hpin.
    apply present_true. split; [exact Hv|].
    apply in_app_or in Hpin. destruct Hpin as [Hpin|[<-|Hpin]].
    + exists p. split; [apply in_or_app; now left | exact Hpv].
    + unfold check_referenced in Hrd.
      pose proof (proj1 (first_error_none _ _) Hrd _ Hf) as H0.
      cbn [parent_column child_column child] in H0.
      destruct (value_eqb (get pc OLD) (get pc NEW)) eqn:Heq.
      * apply value_eqb_eq in Heq. exists NEW.
        split; [apply in_or_app; right; now left | congruence].
      * exfalso.
        destruct (existsb (fun o => matches (get fk o) (get pc OLD))
                          (d child_)) eqn:Hex; [discriminate|].
        assert (Hex' : existsb (fun o => matches (get fk o) (get pc OLD))
                               (d child_) = true).
        { apply existsb_exists. exists r. split; [exact Hin|].
          apply matches_true. split; [exact Hv | now symmetry]. }
        congruence.
    + exists p. split; [apply in_or_app; right; now right | exact Hpv].
Qed.

Lemma without_in (gone : row -> bool) (rows : list row) (r : row) :
  In r (without gone rows) -> In r rows.
Proof. intros H. apply filter_In in H. tauto. Qed.

Ltac parent_survives Hd Hr :=
  first
    [ eapply survivor_keeps_parent;
      [exact Hr | apply Hd; [cbn; tauto | exact (without_in _ _ _ Hr)]]
    | apply Hd; [cbn; tauto | first [exact Hr | exact (without_in _ _ _ Hr)]] ].

(** A DELETE on any table leaves no dangling reference behind. *)
Lemma delete_keeps_integrity (t : table) (where_ : row -> bool) (d d' : db)
      (n : nat) (o : outcome) :
  In t schema -> integrity d ->
  delete_from (5 + n) t where_ d = Some (d', o) ->
  integrity d'.
Proof.
  intros Ht Hi. unfold delete_from.
  each_table Ht;
    cbn [tbl_name users organizers events ticket_tiers tickets transactions];
    [ change (5 + n)%nat with (3 + (2 + n))%nat; rewrite cascade_from_users
    | rewrite cascade_from_organizers
    | change (5 + n)%nat with (4 + (1 + n))%nat; rewrite cascade_from_events
    | change (5 + n)%nat with (3 + (2 + n))%nat;
      rewrite cascade_from_ticket_tiers
    | change (5 + n)%nat with (2 + (3 + n))%nat; rewrite cascade_from_tickets
    | change (5 + n)%nat with (1 + (4 + n))%nat;
      rewrite cascade_from_transactions ];
    cbv zeta; intros [= <- _];
    intros child_ fk parent pc r Hk Hr;
    pose proof (Hi child_ fk parent pc r) as Hd;
    rewrite foreign_keys_of_schema in Hk; cbn in Hk;
    destruct Hk as [Hk|[Hk|[Hk|[Hk|[Hk|[]]]]]];
    injection Hk as <- <- <- <-;
    cbn [put String.eqb Ascii.eqb Bool.eqb] in Hr |- *;
    parent_survives Hd Hr.
Qed.

Lemma integrity_empty : integrity empty.
Proof. intros child_ fk parent pc r _ []. Qed.

(** X4: every database that INSERT, UPDATE and DELETE statements on the
    six tables build from the empty one is consistent: each row has exactly
    the columns of its table, primary keys are never NULL and never
    repeated, and every foreign-key value is the id of a row of the
    referenced table. *)
Theorem reachable_is_consistent (d : db) :
  reachable d -> shaped d = true /\ keys_unique d /\ integrity d.
Proof.
  induction 1 as [|e t st d Ht _ (Hs & Hk & Hi)
                  |e t k st d Ht _ (Hs & Hk & Hi)
                  |n t where_ d d' o Ht _ (Hs & Hk & Hi) Hdel].
  - split; [reflexivity|]. split; [apply keys_unique_empty|].
    apply integrity_empty.
  - split; [now apply insert_shaped|].
    split; [now apply insert_keys_unique | now apply insert_keeps_integrity].
  - split; [now apply update_shaped|].
    split; [now apply update_keys_unique | now apply update_keeps_integrity].
  - split; [exact (delete_shaped _ _ _ _ _ _ Hs Hdel)|].
    split; [exact (delete_keys_unique _ _ _ _ _ _ Hk Hdel)|].
    exact (delete_keeps_integrity _ _ _ _ _ _ Ht Hi Hdel).
Qed.

End Consistency.

Section ConsistencyWitness.

Local Open Scope string_scope.
Local Open Scope list_scope.

Lemma populate_reachable (script : list (table * statement)) :
  forall (n : N) (d : db),
    (forall t st, In (t, st) script -> In t schema) ->
    reachable d -> reachable (Scenario.populate n script d).
Proof.
  induction script as [|[t st] script IH]; intros n d Hs Hd; cbn.
  - exact Hd.
  - apply IH.
    + intros t' st' Hin. apply (Hs t' st'). now right.
    + apply reach_insert; [|exact Hd]. apply (Hs t st). now left.
Qed.

Lemma reachable_is_consistent_witness :
  shaped Scenario.box_office = true
  /\ keys_unique Scenario.box_office
  /\ integrity Scenario.box_office.
Proof.
  apply (reachable_is_consistent Scenario.box_office).
  apply populate_reachable; [|apply reach_empty].
  intros t st Hin. cbn in Hin.
  repeat (destruct Hin as [Hin|Hin];
          [injection Hin as <- _; cbn; tauto|]).
  contradiction.
Defined.

End ConsistencyWitness.

(** * What INSERT rejects and what it stores *)

Section InsertEdges.

Local Open Scope string_scope.
Local Open Scope Z_scope.
Local Open Scope list_scope.

Lemma check_not_null_some (t : table) (r : row) (c : column) :
  In c (tbl_columns t) -> is_not_null c = true ->
  get (col_name c) r = NULL ->
  exists c', In c' (column_names t)
             /\ check_not_null t r
                = Some (not_null_violation (tbl_name t) c').
Proof.
  intros Hc Hn Hv. unfold check_not_null.
  set (chk := fun c0 : column => if is_not_null c0 then _ else None).
  assert (Hne : chk c <> None) by (unfold chk; now rewrite Hn, Hv).
  destruct (first_error_exists chk (tbl_columns t) c Hc Hne)
    as (y & err & Hy & Hchk & Hf).
  exists (col_name y). split; [now apply in_map|]. rewrite Hf. f_equal.
  unfold chk in Hchk. destruct (is_not_null y); [|discriminate].
  destruct (get (col_name y) r); [|discriminate ..]. congruence.
Qed.

(** X6: an INSERT that gives NULL to a NOT NULL column, or leaves out a
    NOT NULL column that has no DEFAULT, fails with a NOT NULL violation
    and leaves the database as it was (the statement being well formed). *)
Theorem missing_value_is_rejected (t : table) (c : column) (e : env)
        (st : statement) (d : db) :
  In t schema -> In c (tbl_columns t) -> is_not_null c = true ->
  check_statement t st = None ->
  assoc (col_name c) st = Some NULL
  \/ (assoc (col_name c) st = None /\ default_of c = None) ->
  exists c',
    In c' (column_names t)
    /\ insert e t st d = (d, Failed (not_null_violation (tbl_name t) c')).
Proof.
  intros Ht Hc Hn Hst Hmiss.
  assert (Hv : get (col_name c) (new_row e t st) = NULL).
  { rewrite get_new_row; [|now apply schema_columns_distinct | exact Hc].
    unfold supplied. destruct Hmiss as [-> | [-> ->]]; reflexivity. }
  destruct (check_not_null_some t _ c Hc Hn Hv) as (c' & Hin & Hchk).
  exists c'. split; [exact Hin|].
  unfold insert. rewrite fire_before_insert, Hst, Hchk. reflexivity.
Qed.

Lemma missing_value_is_rejected_witness :
  exists c',
    In c' (column_names users)
    /\ insert (Scenario.at_ 30 2) users [("email", text "bob@example.org")]
              Scenario.db_ada
       = (Scenario.db_ada, Failed (not_null_violation "users" c')).
Proof.
  apply (missing_value_is_rejected users (col "name" TEXT [NOT_NULL])
           (Scenario.at_ 30 2) [("email", text "bob@example.org")]
           Scenario.db_ada).
  - cbn. tauto.
  - cbn. tauto.
  - reflexivity.
  - reflexivity.
  - right. split; reflexivity.
Defined.

(** In each table the id column comes first, so its index is the first one
    checked. *)
Lemma check_unique_id_taken (t : table) (r : row) (rows : list row) :
  In t schema -> present "id" (get "id" r) rows = true ->
  check_unique t r rows = Some (unique_violation (tbl_name t) "id").
Proof.
  intros Ht Hp. unfold check_unique.
  each_table Ht; cbn -[present get]; now rewrite Hp.
Qed.

(** X7: an INSERT whose id, supplied or generated, is already the id of a
    row of the table fails with a uniqueness violation on id and leaves the
    database as it was (the statement being well formed and giving every
    NOT NULL column a value). *)
Theorem duplicate_id_is_rejected (t : table) (e : env) (st : statement)
        (d : db) :
  In t schema ->
  let NEW := new_row e t st in
  check_statement t st = None ->
  check_not_null t NEW = None ->
  present "id" (get "id" NEW) (d (tbl_name t)) = true ->
  insert e t st d = (d, Failed (unique_violation (tbl_name t) "id")).
Proof.
  intros Ht NEW Hst Hnn Hp.
  unfold insert. rewrite fire_before_insert. fold NEW.
  now rewrite Hst, Hnn, (check_unique_id_taken t NEW _ Ht Hp).
Qed.

Lemma duplicate_id_is_rejected_witness :
  insert (Scenario.at_ 30 2) users
         (("id", uuid 1) :: Scenario.insert_bob) Scenario.db_ada
  = (Scenario.db_ada, Failed (unique_violation "users" "id")).
Proof.
  apply (duplicate_id_is_rejected users (Scenario.at_ 30 2)
           (("id", uuid 1) :: Scenario.insert_bob) Scenario.db_ada).
  - cbn. tauto.
  - reflexivity.
  - reflexivity.
  - reflexivity.
Defined.

(** What a successful INSERT did. *)
Lemma insert_inserted (e : env) (t : table) (st : statement) (d d' : db)
      (rows : list row) :
  insert e t st d = (d', Done rows) ->
  let NEW := new_row e t st in
  rows = [NEW]
  /\ d' = put (tbl_name t) (d (tbl_name t) ++ [NEW]) d
  /\ check_statement t st = None
  /\ check_not_null t NEW = None
  /\ check_unique t NEW (d (tbl_name t)) = None
  /\ check_references t (fun _ => true) NEW d = None.
Proof.
  cbv zeta. unfold insert. rewrite fire_before_insert.
  match goal with |- context [match ?c with Some _ => _ | None => _ end] =>
    destruct c eqn:Hchk end; [discriminate|].
  intros [= <- <-].
  apply orelse_none in Hchk. destruct Hchk as [Hchk H4].
  apply orelse_none in Hchk. destruct Hchk as [Hchk H3].
  apply orelse_none in Hchk. destruct Hchk as [H1 H2]. auto 10.
Qed.

Lemma check_statement_names (t : table) (st : statement) (c : string)
      (v : value) :
  check_statement t st = None -> assoc c st = Some v ->
  exists k, In k (tbl_columns t) /\ col_name k = c.
Proof.
  induction st as [|[c0 v0] st IH]; cbn [check_statement assoc];
    [discriminate|].
  destruct (find_column t c0) as [k|] eqn:Hf; [|discriminate].
  destruct (negb (has_type (col_type k) v0)); [discriminate|].
  destruct (assoc c0 st); [discriminate|].
  intros Hst. destruct (String.eqb_spec c0 c) as [<-|_]; [|now apply IH].
  intros _. exists k. unfold find_column in Hf. apply find_some in Hf.
  destruct Hf as [Hin Hn]. apply String.eqb_eq in Hn. auto.
Qed.

(** X8: the row an INSERT stores holds, in each column the statement
    names, the value the statement gives (no trigger runs on INSERT), and
    in a column it does not name the DEFAULT: id holds the identifier
    uuid_generate_v4() returned, created_at and updated_at hold NOW(), in
    each of the six tables; so a row inserted without explicit timestamps
    has created_at = updated_at. *)
Theorem insert_fills_defaults (t : table) (e : env) (st : statement)
        (d d' : db) (NEW : row) :
  In t schema ->
  insert e t st d = (d', Done [NEW]) ->
  (forall c v, assoc c st = Some v -> get c NEW = v)
  /\ (assoc "id" st = None -> get "id" NEW = uuid (generated_uuid e))
  /\ (assoc "created_at" st = None ->
      get "created_at" NEW = timestamptz (current_time e))
  /\ (assoc "updated_at" st = None ->
      get "updated_at" NEW = timestamptz (current_time e))
  /\ (assoc "created_at" st = None -> assoc "updated_at" st = None ->
      get "created_at" NEW = get "updated_at" NEW).
Proof.
  intros Ht Hins.
  destruct (insert_inserted _ _ _ _ _ _ Hins) as (HN & _ & Hst & _).
  injection HN as ->.
  assert (H : (assoc "id" st = None ->
               get "id" (new_row e t st) = uuid (generated_uuid e))
              /\ (assoc "created_at" st = None ->
                  get "created_at" (new_row e t st)
                  = timestamptz (current_time e))
              /\ (assoc "updated_at" st = None ->
                  get "updated_at" (new_row e t st)
                  = timestamptz (current_time e))).
  { each_table Ht; unfold new_row, get, supplied;
      cbn [map tbl_columns users organizers events ticket_tiers tickets
           transactions col_name assoc String.eqb Ascii.eqb Bool.eqb
           default_of first_default col_constraints eval];
      (split; [|split]); intros H; rewrite H; reflexivity. }
  destruct H as (H1 & H2 & H3).
  split.
  { intros c v Hc.
    destruct (check_statement_names t st c v Hst Hc) as (k & Hk & <-).
    rewrite get_new_row; [|now apply schema_columns_distinct | exact Hk].
    unfold supplied. now rewrite Hc. }
  split; [exact H1|]. split; [exact H2|]. split; [exact H3|].
  intros Hc Hu. now rewrite H2, H3.
Qed.

Lemma insert_fills_defaults_witness :
  (forall c v, assoc c Scenario.insert_ada = Some v ->
               get c Scenario.ada = v)
  /\ (assoc "id" Scenario.insert_ada = None -> get "id" Scenario.ada = uuid 1)
  /\ (assoc "created_at" Scenario.insert_ada = None ->
      get "created_at" Scenario.ada = timestamptz 10)
  /\ (assoc "updated_at" Scenario.insert_ada = None ->
      get "updated_at" Scenario.ada = timestamptz 10)
  /\ (assoc "created_at" Scenario.insert_ada = None ->
      assoc "updated_at" Scenario.insert_ada = None ->
      get "created_at" Scenario.ada = get "updated_at" Scenario.ada).
Proof.
  apply (insert_fills_defaults users (Scenario.at_ 10 1) Scenario.insert_ada
           empty Scenario.db_ada Scenario.ada).
  - cbn. tauto.
  - reflexivity.
Defined.

End InsertEdges.

Section Lookup.

Local Open Scope string_scope.
Local Open Scope Z_scope.
Local Open Scope list_scope.

Lemma locate_none (c : string) (k : value) (rows : list row) :
  present c k rows = false -> locate c k rows = None.
Proof.
  unfold present. induction rows as [|r rows IH]; cbn; [reflexivity|].
  destruct (matches k (get c r)); [discriminate|]. cbn.
  intros H. now rewrite IH.
Qed.

Lemma locate_app (c : string) (k : value) (rows : list row) (x : row) :
  locate c k (rows ++ [x])
  = match locate c k rows with
    | Some (before, y, after) => Some (before, y, after ++ [x])
    | None => if matches k (get c x) then Some (rows, x, []) else None
    end.
Proof.
  induction rows as [|r rows IH]; cbn.
  - now destruct (matches k (get c x)).
  - destruct (matches k (get c r)); [reflexivity|]. rewrite IH.
    destruct (locate c k rows) as [[[b y] a]|]; [reflexivity|].
    now destruct (matches k (get c x)).
Qed.

(** X9: after a successful INSERT the new row is the one found under its
    id, and every other key finds what it found before. *)
Theorem inserted_row_is_found (t : table) (e : env) (st : statement)
        (d d' : db) (NEW : row) :
  In t schema ->
  insert e t st d = (d', Done [NEW]) ->
  target t (get "id" NEW) d' = Some NEW
  /\ forall k, matches k (get "id" NEW) = false ->
               target t k d' = target t k d.
Proof.
  intros Ht Hins.
  destruct (insert_inserted _ _ _ _ _ _ Hins) as (HN & -> & _ & Hnn & Hu & _).
  injection HN as ->.
  destruct (id_column t Ht) as (Hpk & c & Hc & Hn & Huc & Hnc).
  pose proof (proj1 (check_not_null_none t _) Hnn c Hc Hnc) as Hv.
  pose proof (proj1 (check_unique_none t _ _) Hu c Hc Huc) as Hp.
  rewrite Hn in Hv, Hp.
  unfold target. rewrite Hpk, put_same, !locate_app. split.
  - rewrite (locate_none _ _ _ Hp).
    assert (Hm : matches (get "id" (new_row e t st))
                         (get "id" (new_row e t st)) = true)
      by (apply matches_true; auto).
    now rewrite Hm.
  - intros k Hk. rewrite locate_app, Hk.
    now destruct (locate "id" k (d (tbl_name t))) as [[[b y] a]|].
Qed.

Lemma inserted_row_is_found_witness :
  target users (get "id" Scenario.ada) Scenario.db_ada = Some Scenario.ada
  /\ forall k, matches k (get "id" Scenario.ada) = false ->
               target users k Scenario.db_ada = target users k empty.
Proof.
  apply (inserted_row_is_found users (Scenario.at_ 10 1) Scenario.insert_ada
           empty Scenario.db_ada Scenario.ada).
  - cbn. tauto.
  - reflexivity.
Defined.




End Lookup.

(** * What UPDATE rejects and what it leaves alone *)

Section UpdateEdges.

Local Open Scope string_scope.
Local Open Scope list_scope.

(** X11: an UPDATE whose key is the id of no row of the table affects no
    row and is not an error: it reports nothing and the database is as it
    was (the statement being well formed). *)
Theorem update_of_missing_key (t : table) (e : env) (k : value)
        (st : statement) (d : db) :
  In t schema ->
  check_statement t st = None ->
  present "id" k (d (tbl_name t)) = false ->
  update e t k st d = (d, Done []).
Proof.
  intros Ht Hst Hp. unfold update.
  now rewrite Hst, (primary_key_id t Ht), (locate_none _ _ _ Hp).
Qed.

Lemma update_of_missing_key_witness :
  update (Scenario.at_ 20 2) users (uuid 99) Scenario.rename_ada
         Scenario.db_ada
  = (Scenario.db_ada, Done []).
Proof.
  apply (update_of_missing_key users (Scenario.at_ 20 2) (uuid 99)
           Scenario.rename_ada Scenario.db_ada).
  - cbn. tauto.
  - reflexivity.
  - reflexivity.
Defined.



(** X13: an UPDATE of a users row that sets email to the email of another
    row fails and leaves the database as it was; when the new row has a
    value in every NOT NULL column and its id collides with no other row,
    the failure is a uniqueness violation on email. *)
Theorem update_to_taken_email_is_rejected (e : env) (k : value)
        (st : statement) (d : db) (before after : list row) (OLD : row)
        (m : string) :
  shaped d = true ->
  locate "id" k (d "users") = Some (before, OLD, after) ->
  check_statement users st = None ->
  assoc "email" st = Some (text m) ->
  present "email" (text m) (before ++ after) = true ->
  let NEW := update_updated_at_column e (assign st OLD) in
  (exists err, update e users k st d = (d, Failed err))
  /\ (check_not_null users NEW = None ->
      present "id" (get "id" NEW) (before ++ after) = false ->
      update e users k st d
      = (d, Failed (unique_violation "users" "email"))).
Proof.
  intros Hs Hl Hst Hm Hp NEW.
  assert (Hin : In users schema) by (cbn; tauto).
  assert (Hk : map fst OLD = column_names users).
  { apply (shaped_row d users OLD Hs Hin).
    apply locate_some in Hl. destruct Hl as [Hrows _].
    change (tbl_name users) with "users". rewrite Hrows.
    apply in_or_app. right. now left. }
  assert (He : get "email" NEW = text m).
  { unfold NEW, update_updated_at_column.
    rewrite get_set_other by discriminate.
    rewrite get_assign, Hm; [reflexivity|]. rewrite Hk. cbn. tauto. }
  assert (Hu : exists c, check_unique users NEW (before ++ after)
                         = Some (unique_violation "users" c)
                         /\ (present "id" (get "id" NEW) (before ++ after)
                             = false -> c = "email")).
  { rewrite check_unique_users, He, Hp.
    destruct (present "id" (get "id" NEW) (before ++ after));
      eexists; split; try reflexivity; intros; congruence. }
  destruct Hu as (c & Hu & Hc).
  unfold update. rewrite Hst. change (primary_key users) with "id".
  change (tbl_name users) with "users". rewrite Hl.
  rewrite (fire_before_update users e _ Hin). fold NEW. rewrite Hu. split.
  - destruct (check_not_null users NEW); cbn; eauto.
  - intros Hnn Hid. rewrite Hnn, (Hc Hid). reflexivity.
Qed.

Lemma update_to_taken_email_is_rejected_witness :
  let NEW := update_updated_at_column (Scenario.at_ 40 3)
               (assign Scenario.bob_takes_ada's_email Scenario.bob) in
  (exists err,
      update (Scenario.at_ 40 3) users (uuid 2)
             Scenario.bob_takes_ada's_email Scenario.db_ada_bob
      = (Scenario.db_ada_bob, Failed err))
  /\ (check_not_null users NEW = None ->
      present "id" (get "id" NEW) ([Scenario.ada] ++ []) = false ->
      update (Scenario.at_ 40 3) users (uuid 2)
             Scenario.bob_takes_ada's_email Scenario.db_ada_bob
      = (Scenario.db_ada_bob, Failed (unique_violation "users" "email"))).
Proof.
  apply (update_to_taken_email_is_rejected (Scenario.at_ 40 3) (uuid 2)
           Scenario.bob_takes_ada's_email Scenario.db_ada_bob
           [Scenario.ada] [] Scenario.bob "ada@example.org");
    reflexivity.
Defined.

(** X14: the id of a row that a row of a child table references cannot be
    changed: no foreign key has an ON UPDATE clause, so the UPDATE fails
    and the database stays as it was; when the new row passes the checks
    that come first, the failure is a foreign-key violation. *)
Theorem referenced_id_cannot_change (t : table) (e : env) (k v : value)
        (st : statement) (d : db) (child_ fk : string)
        (before after : list row) (OLD r : row) :
  In t schema -> shaped d = true ->
  In (child_, fk, tbl_name t, "id") foreign_keys ->
  locate "id" k (d (tbl_name t)) = Some (before, OLD, after) ->
  assoc "id" st = Some v -> v <> k ->
  In r (d child_) -> get fk r = k ->
  let NEW := update_updated_at_column e (assign st OLD) in
  (exists err, update e t k st d = (d, Failed err))
  /\ (check_statement t st = None ->
      check_not_null t NEW = None ->
      check_unique t NEW (before ++ after) = None ->
      check_references t (changed OLD NEW) NEW d = None ->
      exists c f,
        update e t k st d = (d, Failed (foreign_key_violation c f))).
Proof.
  intros Ht Hs Hk Hl Hid Hv Hr Hfk NEW.
  pose proof (locate_some _ _ _ _ _ _ Hl) as [Hrows Hm].
  apply matches_true in Hm. destruct Hm as [Hnull Hold].
  assert (Hkeys : map fst OLD = column_names t).
  { apply (shaped_row d t OLD Hs Ht). rewrite Hrows.
    apply in_or_app. right. now left. }
  assert (Hnew : get "id" NEW = v).
  { unfold NEW, update_updated_at_column.
    rewrite get_set_other by discriminate.
    rewrite get_assign, Hid; [reflexivity|]. rewrite Hkeys.
    destruct (id_column t Ht) as (_ & c & Hc & <- & _). now apply in_map. }
  destruct (foreign_key_referencing t child_ fk "id" Ht Hk) as (_ & a & Hf).
  assert (Hrd : exists c f, check_referenced t OLD NEW d
                            = Some (foreign_key_violation c f)).
  { unfold check_referenced.
    set (chk := fun f0 : reference => if value_eqb _ _ then None else _).
    assert (Hne : chk {| child := child_; child_column := fk;
                         parent_column := "id"; on_delete := a |} <> None).
    { unfold chk. cbn [parent_column child_column child].
      destruct (value_eqb (get "id" OLD) (get "id" NEW)) eqn:Heq.
      - apply value_eqb_eq in Heq. congruence.
      - assert (Hex : existsb (fun o => matches (get fk o) (get "id" OLD))
                              (d child_) = true).
        { apply existsb_exists. exists r. split; [exact Hr|].
          apply matches_true. split; congruence. }
        rewrite Hex. discriminate. }
    destruct (first_error_exists chk _ _ Hf Hne) as (y & err & _ & Hy & ->).
    unfold chk in Hy.
    destruct (value_eqb _ _); [discriminate|].
    destruct (existsb _ _); [|discriminate].
    injection Hy as <-. eauto. }
  destruct Hrd as (c & f & Hrd).
  unfold update. rewrite (primary_key_id t Ht), Hl.
  rewrite (fire_before_update t e _ Ht). fold NEW. rewrite Hrd. split.
  - destruct (check_statement t st); [eauto|].
    destruct (check_not_null t NEW); [cbn; eauto|].
    destruct (check_unique t NEW (before ++ after)); [cbn; eauto|].
    destruct (check_references t (changed OLD NEW) NEW d); cbn; eauto.
  - intros H1 H2 H3 H4. rewrite H1, H2, H3, H4. cbn. eauto.
Qed.

Lemma referenced_id_cannot_change_witness :
  exists err,
    update (Scenario.at_ 40 12) organizers (uuid 2) Scenario.renumber
           Scenario.box_office
    = (Scenario.box_office, Failed err).
Proof.
  let o := eval vm_compute in (Scenario.box_office "organizers") in
  let v := eval vm_compute in (Scenario.box_office "events") in
  match o with
  | ?west :: ?rest =>
      match v with
      | ?meetup :: _ =>
          apply (referenced_id_cannot_change organizers (Scenario.at_ 40 12)
                   (uuid 2) (uuid 42) Scenario.renumber Scenario.box_office
                   "events" "organizer_id" [] rest west meetup)
      end
  end.
  - cbn. tauto.
  - vm_compute. reflexivity.
  - cbn. tauto.
  - vm_compute. reflexivity.
  - reflexivity.
  - discriminate.
  - vm_compute. left. reflexivity.
  - reflexivity.
Defined.

(** X15: in a database with unique keys, the row an UPDATE works on is the
    only row of the table that has the key. *)
Theorem target_is_unique (t : table) (k : value) (d : db) (OLD r : row) :
  In t schema -> keys_unique d ->
  target t k d = Some OLD ->
  In r (d (tbl_name t)) -> get "id" r = k -> r = OLD.
Proof.
  intros Ht Hk Htg Hr Hkey.
  apply (target_is_the_row t k d OLD r Ht Hk Htg Hr).
  now rewrite (primary_key_id t Ht).
Qed.

Lemma target_is_unique_witness :
  nth 1 (Scenario.db_ada_bob "users") [] = Scenario.bob.
Proof.
  apply (target_is_unique users (uuid 2) Scenario.db_ada_bob
           Scenario.bob (nth 1 (Scenario.db_ada_bob "users") [])).
  - cbn. tauto.
  - apply insert_keys_unique; [cbn; tauto|].
    apply insert_keys_unique; [cbn; tauto|]. apply keys_unique_empty.
  - reflexivity.
  - vm_compute. tauto.
  - reflexivity.
Defined.

End UpdateEdges.

(** * What the other tables do not check *)

Section Unchecked.

Local Open Scope string_scope.
Local Open Scope Z_scope.
Local Open Scope list_scope.

(** X16: organizers has no unique column but id: INSERT INTO organizers
    (name, contact_email) succeeds whenever the generated id is unused,
    also when rows with the same name or contact_email exist, and stores
    NULL as description. *)
Theorem organizers_may_share_contact (e : env) (d : db)
        (name contact : string) :
  present "id" (uuid (generated_uuid e)) (d "organizers") = false ->
  let NEW := [("id", uuid (generated_uuid e)); ("name", text name);
              ("description", NULL); ("contact_email", text contact);
              ("created_at", timestamptz (current_time e));
              ("updated_at", timestamptz (current_time e))] in
  insert e organizers [("name", text name); ("contact_email", text contact)] d
  = (put "organizers" (d "organizers" ++ [NEW]) d, Done [NEW]).
Proof.
  intros Hid NEW. apply insert_done.
  - reflexivity.
  - reflexivity.
  - unfold check_unique. cbn -[present].
    change (get "id" _) with (uuid (generated_uuid e)). now rewrite Hid.
  - reflexivity.
Qed.

Lemma organizers_may_share_contact_witness :
  let NEW := [("id", uuid 12); ("name", text "West");
              ("description", NULL); ("contact_email", text "w@example.org");
              ("created_at", timestamptz 12); ("updated_at", timestamptz 12)] in
  insert (Scenario.at_ 12 12) organizers
         [("name", text "West"); ("contact_email", text "w@example.org")]
         Scenario.box_office
  = (put "organizers" (Scenario.box_office "organizers" ++ [NEW])
         Scenario.box_office, Done [NEW]).
Proof.
  apply (organizers_may_share_contact (Scenario.at_ 12 12)
           Scenario.box_office "West" "w@example.org").
  reflexivity.
Defined.



End Unchecked.

(** * The card of an entry *)

Section Cards.

Local Open Scope string_scope.
Local Open Scope list_scope.

(** X18: the card rendered for an entry carries the entry: read back from
    its key, its image and its paragraph it gives the entry again; the
    image has the title as alt text; the card shows the title; and it holds
    one button, labelled Subscribe, with a className and no handler.  Read
    back, the cards of the component are [cardsData]. *)
Theorem card_carries_its_entry (card : Web.InfoCard) :
  Web.read_back (Web.card_view card) = Some card
  /\ Web.card_title (Web.card_view card) = Web.title card
  /\ map (fun img => Web.lookup "alt" (Web.props img))
         (Web.descendants "Image" (Web.card_view card))
     = [Some (Web.str (Web.title card)); Some (Web.str "User Group Icon")]
  /\ map (fun b => (Web.text_content b, map fst (Web.props b)))
         (Web.descendants "button" (Web.card_view card))
     = [("Subscribe", ["className"])]
  /\ map Web.read_back (Web.cards (Web.OrganizerComponent tt))
     = map Some Web.cardsData.
Proof.
  split; [destruct card; reflexivity|].
  split; [reflexivity|]. split; [reflexivity|]. split; [reflexivity|].
  vm_compute. reflexivity.
Qed.

End Cards.

(** * INSERT undone by DELETE *)

Section InsertDelete.

Local Open Scope string_scope.
Local Open Scope list_scope.

Lemma filter_none {A : Type} (p : A -> bool) (l : list A) :
  (forall x, In x l -> p x = false) ->
  filter p l = [] /\ filter (fun x => negb (p x)) l = l.
Proof.
  induction l as [|x l IH]; cbn; intros H; [auto|].
  rewrite (H x) by now left. cbn.
  destruct IH as [-> ->]; [|auto]. intros y Hy. apply H. now right.
Qed.

Lemma present_false (c : string) (v : value) (rows : list row) (r : row) :
  present c v rows = false -> In r rows -> matches v (get c r) = false.
Proof.
  unfold present. intros Hp Hr.
  destruct (matches v (get c r)) eqn:Hm; [|reflexivity].
  assert (existsb (fun o => matches v (get c o)) rows = true)
    by (apply existsb_exists; eauto).
  congruence.
Qed.

(** The row just inserted is the only one a DELETE by its id selects. *)
Lemma select_inserted (k : value) (rows : list row) (NEW : row) :
  get "id" NEW = k -> k <> NULL -> present "id" k rows = false ->
  filter (equals "id" k) (rows ++ [NEW]) = [NEW]
  /\ without (equals "id" k) (rows ++ [NEW]) = rows.
Proof.
  intros Hk Hv Hp. unfold without. rewrite !filter_app.
  destruct (filter_none (equals "id" k) rows) as [-> ->].
  { intros r Hr. exact (present_false _ _ _ _ Hp Hr). }
  assert (Hm : equals "id" k NEW = true).
  { unfold equals. apply matches_true. split; [exact Hv | now symmetry]. }
  cbn. rewrite Hm. cbn. now rewrite app_nil_r.
Qed.

(** No row references an id that no row has. *)
Lemma nobody_references (d : db) (child_ fk parent : string) (k : value)
      (NEW : row) :
  integrity d -> In (child_, fk, parent, "id") foreign_keys ->
  get "id" NEW = k -> present "id" k (d parent) = false ->
  filter (references fk [NEW]) (d child_) = []
  /\ without (references fk [NEW]) (d child_) = d child_.
Proof.
  intros Hi Hk Hid Hp. apply filter_none. intros r Hr.
  unfold references. cbn. rewrite orb_false_r.
  destruct (matches (get fk r) (get "id" NEW)) eqn:Hm; [|reflexivity].
  apply matches_true in Hm. destruct Hm as [_ Hm].
  pose proof (Hi _ _ _ _ r Hk Hr) as Hpr. congruence.
Qed.

(** X19: in a database without dangling references, a successful INSERT
    followed by the DELETE of the inserted id gives back every table as it
    was before the INSERT: the DELETE removes the new row and nothing
    else. *)
Theorem insert_then_delete (t : table) (e : env) (st : statement)
        (d d1 : db) (NEW : row) (n : nat) :
  In t schema -> integrity d ->
  insert e t st d = (d1, Done [NEW]) ->
  exists d2,
    delete_from (5 + n) t (equals "id" (get "id" NEW)) d1
    = Some (d2, Done [NEW])
    /\ forall name, d2 name = d name.
Proof.
  intros Ht Hi Hins.
  destruct (insert_inserted _ _ _ _ _ _ Hins) as (HN & -> & _ & Hnn & Hu & _).
  injection HN as HN.
  destruct (id_column t Ht) as (_ & c & Hc & Hn & Huc & Hnc).
  pose proof (proj1 (check_not_null_none t _) Hnn c Hc Hnc) as Hv.
  pose proof (proj1 (check_unique_none t _ _) Hu c Hc Huc) as Hp.
  rewrite Hn, <- HN in Hv, Hp. rewrite <- HN. clear HN Hnn Hu Hins.
  destruct (select_inserted _ _ NEW eq_refl Hv Hp) as [Ha Ha'].
  assert (Hb : forall child_ fk,
             In (child_, fk, tbl_name t, "id") foreign_keys ->
             filter (references fk [NEW]) (d child_) = []
             /\ without (references fk [NEW]) (d child_) = d child_).
  { intros child_ fk Hk.
    exact (nobody_references d child_ fk (tbl_name t) _ NEW Hi Hk eq_refl Hp). }
  assert (Hnil : forall fk rows, filter (references fk []) rows = []
                                 /\ without (references fk []) rows = rows)
    by apply references_nobody.
  unfold delete_from.
  each_table Ht; cbn [tbl_name users organizers events ticket_tiers tickets
                      transactions] in *;
    [ change (5 + n)%nat with (3 + (2 + n))%nat; rewrite cascade_from_users;
      destruct (Hb "tickets" "user_id") as [Hb1 Hb2]; [cbn; tauto|]
    | rewrite cascade_from_organizers;
      destruct (Hb "events" "organizer_id") as [Hb1 Hb2]; [cbn; tauto|]
    | change (5 + n)%nat with (4 + (1 + n))%nat; rewrite cascade_from_events;
      destruct (Hb "ticket_tiers" "event_id") as [Hb1 Hb2]; [cbn; tauto|]
    | change (5 + n)%nat with (3 + (2 + n))%nat;
      rewrite cascade_from_ticket_tiers;
      destruct (Hb "tickets" "ticket_tier_id") as [Hb1 Hb2]; [cbn; tauto|]
    | change (5 + n)%nat with (2 + (3 + n))%nat; rewrite cascade_from_tickets;
      destruct (Hb "transactions" "ticket_id") as [Hb1 Hb2]; [cbn; tauto|]
    | change (5 + n)%nat with (1 + (4 + n))%nat;
      rewrite cascade_from_transactions;
      pose proof I as Hb1; pose proof I as Hb2 ];
    cbv zeta; cbn [put String.eqb Ascii.eqb Bool.eqb];
    repeat first [ rewrite Ha | rewrite Ha' | rewrite Hb1 | rewrite Hb2
                 | rewrite (proj1 (Hnil _ _)) | rewrite (proj2 (Hnil _ _)) ];
    (eexists; split; [reflexivity|]; intros name; unfold put;
     repeat match goal with
            | |- context [String.eqb name ?x] =>
                destruct (String.eqb_spec name x) as [->|_]; [reflexivity|]
            end;
     reflexivity).
Qed.

Lemma insert_then_delete_witness :
  exists d2,
    delete_from 5 users (equals "id" (get "id" Scenario.bob))
                Scenario.db_ada_bob
    = Some (d2, Done [Scenario.bob])
    /\ forall name, d2 name = Scenario.db_ada name.
Proof.
  apply (insert_then_delete users (Scenario.at_ 30 2) Scenario.insert_bob
           Scenario.db_ada Scenario.db_ada_bob Scenario.bob 0).
  - cbn. tauto.
  - apply insert_keeps_integrity; [cbn; tauto|]. apply integrity_empty.
  - reflexivity.
Defined.

End InsertDelete.
